(** * pyccoon: the language definitions and the section pipeline

    A shallow embedding of [pyccoon/languages/__init__.py]: the regular
    expressions the passes use (with a backtracking matcher that follows
    Python's [re]), the sections, the passes of the parsing strategy, the
    language definitions and the extension registry. *)

From Stdlib Require Import Ascii String.
From stdpp Require Import base option list gmap strings.

Local Open Scope string_scope.
Local Open Scope list_scope.

(** ** Characters and Python's [str] methods *)

Definition nl : ascii := "010"%char.
Definition tab : ascii := "009"%char.
Definition dquote : ascii := "034"%char.
Definition backslash : ascii := "092"%char.

(** [\s] of [re] without the UNICODE and LOCALE flags: space, \t, \n, \v, \f, \r. *)
Definition is_space (c : ascii) : bool :=
  let n := nat_of_ascii c in ((n =? 32) || ((9 <=? n) && (n <=? 13)))%nat.

(** [\w] of [re]: letters, digits and the underscore. *)
Definition is_word (c : ascii) : bool :=
  let n := nat_of_ascii c in
  (((48 <=? n) && (n <=? 57)) || ((65 <=? n) && (n <=? 90))
   || ((97 <=? n) && (n <=? 122)) || (n =? 95))%nat.

Definition is_blank (c : ascii) : bool := Ascii.eqb c " "%char || Ascii.eqb c tab.
Definition is_nl (c : ascii) : bool := Ascii.eqb c nl.

(** A line of text: the string followed by a newline. *)
Definition line (s : string) : string := s +:+ String nl EmptyString.

(** The text made of the given lines, each closed by a newline. *)
Fixpoint text_of (ls : list string) : string :=
  match ls with
  | [] => EmptyString
  | l :: ls' => line l +:+ text_of ls'
  end.

Fixpoint string_rev_onto (s acc : string) : string :=
  match s with
  | EmptyString => acc
  | String c s' => string_rev_onto s' (String c acc)
  end.

Definition string_rev (s : string) : string := string_rev_onto s EmptyString.

(** [s.lstrip(chars)] with the set of characters given as a predicate. *)
Fixpoint lstrip_with (p : ascii -> bool) (s : string) : string :=
  match s with
  | EmptyString => EmptyString
  | String c s' => if p c then lstrip_with p s' else s
  end.

Definition rstrip_with (p : ascii -> bool) (s : string) : string :=
  string_rev (lstrip_with p (string_rev s)).

Definition strip_with (p : ascii -> bool) (s : string) : string :=
  rstrip_with p (lstrip_with p s).

(** [s.strip()], [s.strip('\n')], [s.lstrip('\n')], [s.rstrip('\n')]. *)
Definition strip (s : string) : string := strip_with is_space s.
Definition strip_nl (s : string) : string := strip_with is_nl s.
Definition lstrip_nl (s : string) : string := lstrip_with is_nl s.
Definition rstrip_nl (s : string) : string := rstrip_with is_nl s.

(** [s[lo:hi]] for [lo <= hi]. *)
Definition slice (lo hi : nat) (s : string) : string := substring lo (hi - lo) s.

(** [s[lo:]]. *)
Fixpoint drop_string (n : nat) (s : string) : string :=
  match n, s with
  | S n', String _ s' => drop_string n' s'
  | _, _ => s
  end.

(** [s.split('\n')]: the pieces between newlines; never the empty list. *)
Fixpoint split_nl_acc (cur : string) (s : string) : list string :=
  match s with
  | EmptyString => [string_rev cur]
  | String c s' =>
      if is_nl c then string_rev cur :: split_nl_acc EmptyString s'
      else split_nl_acc (String c cur) s'
  end.

Definition split_nl (s : string) : list string := split_nl_acc EmptyString s.

(** [s.endswith(suffix)]. *)
Definition endswith (s suffix : string) : bool :=
  String.prefix (string_rev suffix) (string_rev s).

(** [c in s] for a one-character [c]. *)
Fixpoint contains_char (c : ascii) (s : string) : bool :=
  match s with
  | EmptyString => false
  | String a s' => Ascii.eqb a c || contains_char c s'
  end.

Definition lower_char (c : ascii) : ascii :=
  let n := nat_of_ascii c in
  if ((65 <=? n) && (n <=? 90))%nat then ascii_of_nat (n + 32) else c.

(** [s.lower()] on a byte string. *)
Fixpoint lower (s : string) : string :=
  match s with
  | EmptyString => EmptyString
  | String c s' => String (lower_char c) (lower s')
  end.

(** Truthiness of a string: [bool(s)]. *)
Definition nonempty (s : string) : bool :=
  match s with EmptyString => false | String _ _ => true end.

(** [os.path.basename]: what follows the last slash. *)
Fixpoint basename_acc (cur s : string) : string :=
  match s with
  | EmptyString => string_rev cur
  | String c s' =>
      if Ascii.eqb c "/"%char then basename_acc EmptyString s'
      else basename_acc (String c cur) s'
  end.

Definition basename (p : string) : string := basename_acc EmptyString p.

(** ** Regular expressions

    The fragment of [re]'s syntax the passes use.  Quantifiers are greedy. *)

Inductive regex : Type :=
| Eps
| Chr (c : ascii)
| Cls (p : ascii -> bool)
| Seq (r1 r2 : regex)
| Alt (r1 r2 : regex)
| Star (r : regex)
| Grp (n : nat) (r : regex)
| Bol
| Eol
| NotAhead (r : regex)
| Ahead (r : regex).

(** [.] matches anything but a newline (no DOTALL). *)
Definition Dot : regex := Cls (fun c => negb (is_nl c)).
Definition Plus (r : regex) : regex := Seq r (Star r).

(** [r{0,n}] *)
Fixpoint Upto (n : nat) (r : regex) : regex :=
  match n with
  | O => Eps
  | S n' => Alt (Seq r (Upto n' r)) Eps
  end.

(** A literal string. *)
Fixpoint Lit (s : string) : regex :=
  match s with
  | EmptyString => Eps
  | String c s' => Seq (Chr c) (Lit s')
  end.

(** The alternation [r1|r2|...] of a list; [Alt] of nothing matches nothing. *)
Fixpoint Alts (rs : list regex) : regex :=
  match rs with
  | [] => NotAhead Eps
  | [r] => r
  | r :: rs' => Alt r (Alts rs')
  end.

(** The state of a match attempt: the character before the current position
    ([None] at the start of the text), the position, the text from there on,
    and the spans of the groups closed so far (latest first). *)
Record mstate : Type := MState {
  m_prev : option ascii;
  m_pos : nat;
  m_rest : string;
  m_groups : list (nat * (nat * nat))
}.

Definition eat (c : ascii) (s : string) (st : mstate) : mstate :=
  MState (Some c) (S (m_pos st)) s (m_groups st).

Definition close_group (n : nat) (from : nat) (st : mstate) : mstate :=
  MState (m_prev st) (m_pos st) (m_rest st) ((n, (from, m_pos st)) :: m_groups st).

Section Matcher.

(** The MULTILINE flag. *)
Variable multiline : bool.

Definition at_bol (st : mstate) : bool :=
  match m_prev st with
  | None => true
  | Some c => multiline && is_nl c
  end.

Definition at_eol (st : mstate) : bool :=
  match m_rest st with
  | EmptyString => true
  | String c s => is_nl c && (multiline || negb (nonempty s))
  end.

(** Greedy iteration: one more round of [step] first, the current state last.
    A round that consumes nothing is dropped, as [re] ends such a loop. *)
Definition star_loop (step : mstate -> list mstate) : nat -> mstate -> list mstate :=
  fix go (fuel : nat) (st : mstate) : list mstate :=
    match fuel with
    | O => [st]
    | S fuel' =>
        flat_map (fun st' => if (m_pos st' =? m_pos st)%nat then [] else go fuel' st') (step st)
        ++ [st]
    end.

(** All the ways [r] matches from [st], in the order a backtracking matcher
    tries them: the head is the match [re] reports. *)
Fixpoint rmatch (r : regex) (st : mstate) : list mstate :=
  match r with
  | Eps => [st]
  | Chr c =>
      match m_rest st with
      | String a s => if Ascii.eqb a c then [eat a s st] else []
      | EmptyString => []
      end
  | Cls p =>
      match m_rest st with
      | String a s => if p a then [eat a s st] else []
      | EmptyString => []
      end
  | Seq r1 r2 => flat_map (rmatch r2) (rmatch r1 st)
  | Alt r1 r2 => rmatch r1 st ++ rmatch r2 st
  | Star r' => star_loop (rmatch r') (S (String.length (m_rest st))) st
  | Grp n r' => map (close_group n (m_pos st)) (rmatch r' st)
  | Bol => if at_bol st then [st] else []
  | Eol => if at_eol st then [st] else []
  | NotAhead r' => match rmatch r' st with [] => [st] | _ :: _ => [] end
  | Ahead r' => match rmatch r' st with [] => [] | _ :: _ => [st] end
  end.

(** The leftmost match at or after the given state: its start and its end state. *)
Fixpoint search_at (r : regex) (prev : option ascii) (pos : nat) (s : string)
  : option (nat * mstate) :=
  match rmatch r (MState prev pos s []) with
  | e :: _ => Some (pos, e)
  | [] =>
      match s with
      | EmptyString => None
      | String c s' => search_at r (Some c) (S pos) s'
      end
  end.

End Matcher.

(** A match object: the text searched, the span of the match, the groups. *)
Record Match : Type := MkMatch {
  match_text : string;
  match_start : nat;
  match_end : nat;
  match_groups : list (nat * (nat * nat))
}.

Definition mk_match (text : string) (found : nat * mstate) : Match :=
  MkMatch text (fst found) (m_pos (snd found)) (m_groups (snd found)).

Fixpoint group_span (n : nat) (gs : list (nat * (nat * nat))) : option (nat * nat) :=
  match gs with
  | [] => None
  | (k, span) :: gs' => if (k =? n)%nat then Some span else group_span n gs'
  end.

(** [m.group(n)]; a group that took no part in the match ([None] in Python)
    reads as the empty string. *)
Definition group (m : Match) (n : nat) : string :=
  match n with
  | O => slice (match_start m) (match_end m) (match_text m)
  | _ =>
      match group_span n (match_groups m) with
      | Some (lo, hi) => slice lo hi (match_text m)
      | None => EmptyString
      end
  end.

(** The state at position [n] of a text (at its end when [n] is past it). *)
Fixpoint seek (n : nat) (prev : option ascii) (pos : nat) (s : string)
  : option ascii * nat * string :=
  match n, s with
  | S n', String c s' => seek n' (Some c) (S pos) s'
  | _, _ => (prev, pos, s)
  end.

(** [re.match(r, text)] *)
Definition re_match (multiline : bool) (r : regex) (text : string) : option Match :=
  match rmatch multiline r (MState None 0 text []) with
  | e :: _ => Some (mk_match text (0, e))
  | [] => None
  end.

(** [r.search(text, pos)] *)
Definition re_search (multiline : bool) (r : regex) (text : string) (pos : nat)
  : option Match :=
  let '(prev, p, s) := seek pos None 0 text in
  mk_match text <$> search_at multiline r prev p s.

(** [r.finditer(text)]: the matches from left to right, none overlapping;
    after an empty match the scan moves on by one character. *)
Fixpoint finditer_from (multiline : bool) (r : regex) (text : string) (fuel : nat)
  (prev : option ascii) (pos : nat) (s : string) : list Match :=
  match fuel with
  | O => []
  | S fuel' =>
      match search_at multiline r prev pos s with
      | None => []
      | Some (b, e) =>
          mk_match text (b, e) ::
          (if (m_pos e =? b)%nat then
             match m_rest e with
             | EmptyString => []
             | String c s' => finditer_from multiline r text fuel' (Some c) (S b) s'
             end
           else finditer_from multiline r text fuel' (m_prev e) (m_pos e) (m_rest e))
      end
  end.

Definition finditer (multiline : bool) (r : regex) (text : string) : list Match :=
  finditer_from multiline r text (S (String.length text)) None 0 text.

(** [r.sub(repl, text)]: every match replaced, the text between kept.  An
    empty match right after the previous match is left alone. *)
Fixpoint sub_from (multiline : bool) (r : regex) (repl : Match -> string) (text : string)
  (fuel : nat) (last : option nat) (prev : option ascii) (pos : nat) (s : string) : string :=
  match fuel with
  | O => s
  | S fuel' =>
      match rmatch multiline r (MState prev pos s []) with
      | e :: _ =>
          if (m_pos e =? pos)%nat then
            let out :=
              if decide (last = Some pos) then EmptyString
              else repl (mk_match text (pos, e)) in
            let last' := if decide (last = Some pos) then last else Some pos in
            match s with
            | EmptyString => out
            | String c s' =>
                out +:+ String c (sub_from multiline r repl text fuel' last' (Some c) (S pos) s')
            end
          else
            repl (mk_match text (pos, e))
            +:+ sub_from multiline r repl text fuel' (Some (m_pos e)) (m_prev e) (m_pos e) (m_rest e)
      | [] =>
          match s with
          | EmptyString => EmptyString
          | String c s' =>
              String c (sub_from multiline r repl text fuel' last (Some c) (S pos) s')
          end
      end
  end.

Definition re_sub (multiline : bool) (r : regex) (repl : Match -> string) (text : string)
  : string :=
  sub_from multiline r repl text (S (String.length text)) None None 0 text.

(** ** Sections *)

(** Modelled from the spec: the class [Section] of [languages/utils.py], which
    is not among the sources.  The data model gives a section its
    documentation text and code text (both possibly empty), an indentation
    level, an optional scope label and an optional processing flag.  The
    label is a string here and the empty string is the missing label: the
    passes only test a label for truth, and both [None] and the empty string
    are false in Python.  A new section starts with empty texts, level 0, no
    label and no flag. *)
Record section : Type := MkSection {
  docs_text : string;
  code_text : string;
  level : nat;
  scope : string;
  meta : option string
}.

(** [Section(docs_text=docs, code_text=code)] *)
Definition new_section (docs code : string) : section :=
  MkSection docs code 0 EmptyString None.

Definition set_docs (d : string) (s : section) : section :=
  MkSection d (code_text s) (level s) (scope s) (meta s).
Definition set_code (c : string) (s : section) : section :=
  MkSection (docs_text s) c (level s) (scope s) (meta s).
Definition set_level (n : nat) (s : section) : section :=
  MkSection (docs_text s) (code_text s) n (scope s) (meta s).
Definition set_scope (l : string) (s : section) : section :=
  MkSection (docs_text s) (code_text s) (level s) l (meta s).
Definition set_meta (m : option string) (s : section) : section :=
  MkSection (docs_text s) (code_text s) (level s) (scope s) m.

(** Modelled from the spec: [Section.has_code] and [Section.has_docs] of
    [languages/utils.py].  The spec words the final filter, which the code
    writes with these two methods, as keeping the sections with non-empty
    documentation text or non-empty code text. *)
Definition has_code (s : section) : bool := nonempty (code_text s).
Definition has_docs (s : section) : bool := nonempty (docs_text s).

(** [a or b] on strings. *)
Definition str_or (a b : string) : string := if nonempty a then a else b.

(** ** Iterating a pass over the sections *)

(** A method under [@iterate_sections]: from the list and an index to the
    list as the method leaves it and the value it returns, an index or
    [None]. *)
Definition step : Type := list section -> nat -> list section * option nat.

(** A method of the strategy, as [parse] calls it.  [None] stands for an
    iteration that did not end within the bound given below. *)
Definition pass : Type := list section -> option (list section).

(** Modelled from the spec: the decorator [iterate_sections(start=1)] of
    [languages/utils.py].  Passes are index-based iterations over a list they
    edit in place: the method runs at [i] while [i] is an index of the list;
    the index it returns is the next one ([python_absorb] returns [i] to
    stay), and [i + 1] is next when it returns nothing. *)
Fixpoint iterate_from (f : step) (fuel : nat) (i : nat) (sections : list section)
  : option (list section) :=
  if (length sections <=? i)%nat then Some sections
  else
    match fuel with
    | O => None
    | S fuel' =>
        let '(sections', next) := f sections i in
        iterate_from f fuel' (default (S i) next) sections'
    end.

Definition total_code (sections : list section) : nat :=
  foldr (fun s n => String.length (code_text s) + n) 0 sections.

(** A bound on the number of rounds: every round moves on by one section,
    drops one, or cuts one into pieces with no more code among them. *)
Definition iteration_bound (sections : list section) : nat :=
  S (length sections + 2 * total_code sections).

Definition iterate_sections (start : nat) (f : step) : pass :=
  fun sections => iterate_from f (iteration_bound sections) start sections.

(** A method that edits only [sections[i]]. *)
Definition at_index (f : list section -> nat -> section -> section) : step :=
  fun sections i =>
    match sections !! i with
    | Some s => (<[i := f sections i s]> sections, None)
    | None => (sections, None)
    end.

(** ** The parsing strategy *)

(** Modelled from the spec: the class [ParsingStrategy] of
    [languages/utils.py], an ordered list of named passes with
    insert-before, insert-after and delete by name; [insert(0, m)] is the
    list method. *)
Definition ParsingStrategy : Type := list (string * pass).

Definition insert_first (m : string * pass) (s : ParsingStrategy) : ParsingStrategy :=
  m :: s.

Fixpoint insert_before (name : string) (m : string * pass) (s : ParsingStrategy)
  : ParsingStrategy :=
  match s with
  | [] => []
  | p :: s' =>
      if String.eqb (fst p) name then m :: p :: s' else p :: insert_before name m s'
  end.

Fixpoint insert_after (name : string) (m : string * pass) (s : ParsingStrategy)
  : ParsingStrategy :=
  match s with
  | [] => []
  | p :: s' =>
      if String.eqb (fst p) name then p :: m :: s' else p :: insert_after name m s'
  end.

Fixpoint delete_pass (name : string) (s : ParsingStrategy) : ParsingStrategy :=
  match s with
  | [] => []
  | p :: s' => if String.eqb (fst p) name then s' else p :: delete_pass name s'
  end.

(** [for method in self.strategy(): sections = method(sections)] *)
Fixpoint run_strategy (s : ParsingStrategy) (sections : list section)
  : option (list section) :=
  match s with
  | [] => Some sections
  | (_, m) :: s' =>
      match m sections with
      | Some sections' => run_strategy s' sections'
      | None => None
      end
  end.

(** ** Splitting a section *)

(** The code pieces and the documentation pieces of a text cut at the given
    matches: the text before the first match, then for each match its first
    group and the text up to the next match. *)
Fixpoint cut_at_matches (text : string) (from : nat) (ms : list Match) (flag : option string)
  : list section :=
  match ms with
  | [] => [new_section EmptyString (drop_string from text)]
  | m :: ms' =>
      new_section EmptyString (slice from (match_start m) text)
      :: set_meta flag (new_section (group m 1) EmptyString)
      :: cut_at_matches text (match_end m) ms' flag
  end.

(** Modelled from the spec: [split_section_by_regex(section, regex, meta)] of
    [languages/utils.py]: it finds the matches of the pattern in the
    section's code text and cuts at each match boundary; the matched text
    (the pattern's first group, which leaves out a closing delimiter) becomes
    the documentation of a section of its own, tagged with the flag, and the
    remainders stay as code.  The documentation, level and label of the
    section stay with the first piece.  With no match the section is
    returned unchanged, alone. *)
Definition split_section_by_regex (s : section) (multiline : bool) (r : regex)
  (flag : option string) : list section :=
  match finditer multiline r (code_text s) with
  | [] => [s]
  | ms =>
      match cut_at_matches (code_text s) 0 ms flag with
      | first :: pieces => set_code (code_text first) s :: pieces
      | [] => [s]
      end
  end.

(** [sections[i:i+1] = pieces] *)
Definition splice (i : nat) (pieces : list section) (sections : list section)
  : list section :=
  take i sections ++ pieces ++ drop (S i) sections.

(** Modelled from the spec: [split_code_by_pos(i, pos, sections)] of
    [languages/utils.py]: it cuts the code text of [sections[i]] at [pos]
    into two sections, in place; the first retains what is before [pos] and
    the documentation, the second is a new section with the code from [pos]
    on. *)
Definition split_code_by_pos (i pos : nat) (sections : list section) : list section :=
  match sections !! i with
  | Some s =>
      splice i [set_code (slice 0 pos (code_text s)) s;
                new_section EmptyString (drop_string pos (code_text s))] sections
  | None => sections
  end.

(** [sections[i] = f(sections[i])] *)
Definition update (i : nat) (f : section -> section) (sections : list section)
  : list section :=
  match sections !! i with
  | Some s => <[i := f s]> sections
  | None => sections
  end.

(** ** The passes of [Language] *)

(** The pattern of the two level passes: at a line start, group 1 holds the
    greedy run of spaces and tabs. *)
Definition blank_indent_re : regex := Seq Bol (Grp 1 (Star (Cls is_blank))).

(** [re.match(pattern, text).group(1)] for that pattern. *)
Definition blank_indent (multiline : bool) (text : string) : string :=
  match re_match multiline blank_indent_re text with
  | Some m => group m 1
  | None => EmptyString
  end.

Definition set_sections_levels_at : step :=
  at_index (fun sections i s =>
    if nonempty (code_text s) then
      set_level (String.length (blank_indent false (code_text s))) s
    else if (0 <? i)%nat then
      match sections !! (i - 1) with
      | Some p => set_level (level p) s
      | None => s
      end
    else s).

Definition set_sections_levels : pass := iterate_sections 0 set_sections_levels_at.

Definition strip_docs_indentation_at : step :=
  at_index (fun _ _ s =>
    let indent := blank_indent true (docs_text s) in
    set_docs (re_sub true (Seq Bol (Lit indent)) (fun _ => EmptyString) (docs_text s)) s).

Definition strip_docs_indentation : pass := iterate_sections 0 strip_docs_indentation_at.

(** [text.strip().split("\n")[-1].strip()] *)
Definition last_line (text : string) : string :=
  strip (List.last (split_nl (strip text)) EmptyString).

(** [any([re.match(x, line) for x in scope_keywords])] *)
Definition matches_any (keywords : list regex) (text : string) : bool :=
  existsb (fun x => bool_decide (is_Some (re_match false x text))) keywords.

Definition merge_up_at (scope_keywords : list regex) : step :=
  fun sections i =>
    match sections !! (i - 1), sections !! i with
    | Some prev, Some cur =>
        if negb (has_code cur) && negb (has_docs prev) && has_code prev then
          if matches_any scope_keywords (last_line (code_text prev)) then
            (delete i (<[i - 1 := set_docs (docs_text cur) prev]> sections), None)
          else (sections, None)
        else (sections, None)
    | _, _ => (sections, None)
    end.

Definition merge_up (scope_keywords : list regex) : pass :=
  iterate_sections 1 (merge_up_at scope_keywords).

Definition merge_down_at : step :=
  fun sections i =>
    match sections !! (i - 1), sections !! i with
    | Some prev, Some cur =>
        if negb (has_code prev) && has_docs prev && negb (has_docs cur) && has_code cur then
          (delete i
             (<[i - 1 := set_scope (str_or (scope cur) (scope prev))
                           (set_code (code_text cur) prev)]> sections),
           None)
        else (sections, None)
    | _, _ => (sections, None)
    end.

Definition merge_down : pass := iterate_sections 1 merge_down_at.

(** Two newlines, the separator [absorb] joins code with. *)
Definition blank_line : string := String nl (String nl EmptyString).

Definition absorb_at : step :=
  fun sections i =>
    match sections !! (i - 1), sections !! i with
    | Some prev, Some cur =>
        if negb (has_docs cur) && (level prev <? level cur)%nat then
          (delete i
             (<[i - 1 := set_code (rstrip_nl (code_text prev) +:+ blank_line
                                     +:+ lstrip_nl (code_text cur)) prev]> sections),
           None)
        else (sections, None)
    | _, _ => (sections, None)
    end.

Definition absorb : pass := iterate_sections 1 absorb_at.

(** [Language.strategy] *)
Definition Language_strategy (scope_keywords : list regex) : ParsingStrategy :=
  [("set_sections_levels", set_sections_levels);
   ("strip_docs_indentation", strip_docs_indentation);
   ("set_sections_levels", set_sections_levels);
   ("merge_up", merge_up scope_keywords);
   ("set_sections_levels", set_sections_levels);
   ("merge_down", merge_down);
   ("set_sections_levels", set_sections_levels);
   ("absorb", absorb)].

(** [Language.parse]: the strategy applied to the one section holding the
    whole text as code, then the empty sections stripped. *)
Definition Language_parse (strategy : ParsingStrategy) (code : string)
  : option (list section) :=
  match run_strategy strategy [new_section EmptyString code] with
  | Some sections => Some (filter (fun s => has_code s || has_docs s) sections)
  | None => None
  end.

(** [PlainText.parse], which [Markdown] inherits. *)
Definition PlainText_parse (code : string) : list section :=
  [new_section code EmptyString].

(** ** The mixins *)

(** [InlineCommentLanguage.inline_prefix]: [^[ \t]*{delimiter}] *)
Definition inline_prefix (inline_delimiter : string) : regex :=
  Seq Bol (Seq (Star (Cls is_blank)) (Lit inline_delimiter)).

(** The lookahead of [inline_re]: [(?!(p1|p2|...))] over the ignored
    patterns, whose alternation is group 2, and nothing when there are none. *)
Definition dont_match (ignored_inline_patterns : list regex) : regex :=
  match ignored_inline_patterns with
  | [] => Eps
  | ps => NotAhead (Grp 2 (Alts ps))
  end.

(** One line of [inline_re]: a line start, spaces and tabs, the delimiter
    (not followed by an ignored pattern) and the rest of the line with its
    newline. *)
Definition inline_line (inline_delimiter : string) (ignored_inline_patterns : list regex)
  : regex :=
  Seq Bol (Seq (Star (Cls is_blank)) (Seq (Lit inline_delimiter)
    (Seq (dont_match ignored_inline_patterns) (Seq (Star Dot) (Chr nl))))).

(** [InlineCommentLanguage.inline_re]: group 1 holds one or more such lines
    in a row. *)
Definition inline_re (inline_delimiter : string) (ignored_inline_patterns : list regex)
  : regex :=
  Grp 1 (Plus (inline_line inline_delimiter ignored_inline_patterns)).

Definition stripped : option string := Some "stripped".

(** [InlineCommentLanguage.parse_inline] *)
Definition parse_inline_at (inline_delimiter : string) (ignored_inline_patterns : list regex)
  : step :=
  fun sections i =>
    match sections !! i with
    | Some s =>
        let new_sections :=
          split_section_by_regex s true (inline_re inline_delimiter ignored_inline_patterns)
            None in
        let strip_prefix (p : section) : section :=
          if bool_decide (meta p = stripped) then p
          else set_meta stripped
                 (set_docs (re_sub true (inline_prefix inline_delimiter)
                              (fun _ => EmptyString) (docs_text p)) p) in
        (splice i (strip_prefix <$> new_sections) sections, None)
    | None => (sections, None)
    end.

Definition parse_inline (inline_delimiter : string) (ignored_inline_patterns : list regex)
  : pass :=
  iterate_sections 0 (parse_inline_at inline_delimiter ignored_inline_patterns).

Definition InlineComment_strategy (inline_delimiter : string)
  (ignored_inline_patterns : list regex) (base : ParsingStrategy) : ParsingStrategy :=
  insert_first ("parse_inline", parse_inline inline_delimiter ignored_inline_patterns) base.

Definition opt_not_ahead (r : option regex) : regex :=
  match r with
  | Some r' => NotAhead r'
  | None => Eps
  end.

(** [MultilineCommentLanguage.multiline_re]: at a line start, group 1 holds
    whitespace, the start delimiter (not followed by the ignored start) and
    then any characters as long as the end delimiter does not start there;
    after the group comes the end delimiter (not at the ignored end). *)
Definition multiline_re (multistart multiend : regex)
  (multiline_ignore_start multiline_ignore_end : option regex) : regex :=
  Seq Bol
    (Seq (Grp 1 (Seq (Star (Cls is_space))
                   (Seq multistart
                      (Seq (opt_not_ahead multiline_ignore_start)
                         (Star (Grp 2 (Seq (NotAhead multiend) (Cls (fun _ => true)))))))))
       (Seq (opt_not_ahead multiline_ignore_end) multiend)).

(** [MultilineCommentLanguage.parse_multiline]: the section is cut, then
    [re.sub] takes the opening delimiter off the documentation of
    [sections[i]]: leading newlines, whitespace (group 1) and the start
    delimiter at the very start are replaced by group 1. *)
Definition parse_multiline_at (multistart multiend : regex)
  (multiline_ignore_start multiline_ignore_end : option regex) : step :=
  fun sections i =>
    match sections !! i with
    | Some s =>
        let sections' :=
          splice i
            (split_section_by_regex s true
               (multiline_re multistart multiend multiline_ignore_start multiline_ignore_end)
               stripped)
            sections in
        (update i (fun p =>
           set_docs (re_sub false
                       (Seq Bol (Seq (Star (Chr nl)) (Seq (Grp 1 (Star (Cls is_space))) multistart)))
                       (fun m => group m 1) (docs_text p)) p) sections',
         None)
    | None => (sections, None)
    end.

Definition parse_multiline (multistart multiend : regex)
  (multiline_ignore_start multiline_ignore_end : option regex) : pass :=
  iterate_sections 0
    (parse_multiline_at multistart multiend multiline_ignore_start multiline_ignore_end).

Definition MultilineComment_strategy (multistart multiend : regex)
  (multiline_ignore_start multiline_ignore_end : option regex) (base : ParsingStrategy)
  : ParsingStrategy :=
  insert_first
    ("parse_multiline",
     parse_multiline multistart multiend multiline_ignore_start multiline_ignore_end)
    base.

Definition not_space (c : ascii) : bool := negb (is_space c).

(** The pattern [split_by_scopes] builds from the width [n] of the indent:
    a line start and, in group 1, at most [n - 1] whitespace characters and
    a character that is not whitespace.  At [n = 0] the bound is written
    [-1]; [re] then reads no repetition there but the six characters of the
    braces as literal text after one whitespace character. *)
Definition outdent_re (n : nat) : regex :=
  Seq Bol
    (Grp 1 (Seq (match n with
                 | O => Seq (Cls is_space) (Lit "{0,-1}")
                 | S k => Upto k (Cls is_space)
                 end)
              (Cls not_space))).

(** The leading whitespace of a text, as [split_by_scopes] reads it with
    [re.match]: the pattern has a greedy run of whitespace of any kind in
    its group 1. *)
Definition space_indent (text : string) : string :=
  match re_match false (Seq Bol (Grp 1 (Star (Cls is_space)))) text with
  | Some m => group m 1
  | None => EmptyString
  end.

(** The scope keywords joined into one alternation, in group 1. *)
Definition scopes_re (scope_keywords : list regex) : regex :=
  Grp 1 (Alts scope_keywords).

(** [IndentBasedLanguage.split_by_scopes] *)
Definition indent_split_by_scopes_at (scope_keywords : list regex) : step :=
  fun sections i =>
    match sections !! i with
    | None => (sections, None)
    | Some s =>
        let indent := String.length (space_indent (strip_nl (code_text s))) in
        let sections1 :=
          match re_search true (outdent_re indent) (code_text s) (indent + 1) with
          | Some m =>
              update (i + 1)
                (set_level (String.length (strip_nl (group m 1))))
                (update i (set_level indent)
                   (split_code_by_pos i (match_start m) sections))
          | None => sections
          end in
        let code1 := default EmptyString (code_text <$> sections1 !! i) in
        let found := re_search true (scopes_re scope_keywords) code1 0 in
        let '(sections2, found2) :=
          match found with
          | Some m =>
              if (match_start m =? 0)%nat then
                (update i (set_scope (strip (group m 1))) sections1,
                 re_search true (scopes_re scope_keywords) code1 (match_start m + 1))
              else (sections1, found)
          | None => (sections1, found)
          end in
        match found2 with
        | Some m =>
            (update (i + 1)
               (fun p => set_scope (strip (group m 1)) (set_code (strip_nl (code_text p)) p))
               (split_code_by_pos i (match_start m) sections2),
             None)
        | None => (sections2, None)
        end
    end.

Definition indent_split_by_scopes (scope_keywords : list regex) : pass :=
  iterate_sections 0 (indent_split_by_scopes_at scope_keywords).

Definition IndentBased_strategy (scope_keywords : list regex) (base : ParsingStrategy)
  : ParsingStrategy :=
  insert_before "merge_up" ("split_by_scopes", indent_split_by_scopes scope_keywords) base.

(** ** Python *)

(** The shebang pattern: [!] and at least one character, in a group. *)
Definition shebang_pattern : regex := Grp 3 (Seq (Chr "!") (Plus Dot)).

(** The file encoding pattern: whitespace, [-*-], whitespace, [coding:], at
    least one character, whitespace and [-*-]; the pattern's groups are
    numbered as they stand in [inline_re]. *)
Definition coding_pattern : regex :=
  Grp 4 (Seq (Star (Grp 5 (Cls is_space)))
          (Seq (Lit "-*-")
             (Seq (Star (Grp 6 (Cls is_space)))
                (Seq (Lit "coding:")
                   (Seq (Plus Dot)
                      (Seq (Grp 7 (Star (Cls is_space))) (Lit "-*-"))))))).

Definition Python_ignored_inline_patterns : list regex :=
  [shebang_pattern; coding_pattern].

Definition triple_quote : regex := Seq (Chr dquote) (Seq (Chr dquote) (Chr dquote)).

(** The scope keywords of Python: a line start and whitespace, then [def]
    and a space, or [class] and a space, or [@] and a word; the keyword
    itself is in a group. *)
Definition Python_scope_keywords : list regex :=
  [Seq Bol (Seq (Star (Cls is_space)) (Seq (Grp 2 (Lit "def")) (Chr " ")));
   Seq Bol (Seq (Star (Cls is_space)) (Seq (Grp 3 (Lit "class")) (Chr " ")));
   Seq Bol (Seq (Star (Cls is_space)) (Seq (Grp 4 (Chr "@")) (Plus (Cls is_word))))].

(** [Python.python_absorb] *)
Definition python_absorb_at : step :=
  fun sections i =>
    match sections !! (i - 1), sections !! i with
    | Some prev, Some cur =>
        if contains_char "@" (scope prev) then
          (take (i - 1) sections
           ++ [set_code (code_text prev +:+ code_text cur)
                 (set_docs (docs_text prev +:+ docs_text cur) cur)]
           ++ drop (S i) sections,
           Some i)
        else (sections, None)
    | _, _ => (sections, None)
    end.

Definition python_absorb : pass := iterate_sections 1 python_absorb_at.

(** [Python.strategy]: the class lists [IndentBasedLanguage],
    [MultilineCommentLanguage] and [InlineCommentLanguage], so each
    [strategy] calls the next one in that order and edits what it returns. *)
Definition Python_strategy : ParsingStrategy :=
  insert_before "absorb" ("python_absorb", python_absorb)
    (IndentBased_strategy Python_scope_keywords
       (MultilineComment_strategy triple_quote triple_quote None None
          (InlineComment_strategy "#" Python_ignored_inline_patterns
             (Language_strategy Python_scope_keywords)))).

Definition Python_parse (code : string) : option (list section) :=
  Language_parse Python_strategy code.

(** ** Language definitions *)

(** Which [parse] a class has: the one of [Language], which runs the
    strategy, or the one [PlainText] defines. *)
Inductive ParseMethod : Type :=
| BaseParse
| PlainTextParse.

(** The attributes of a language class that the registry and the file name
    transformation read, and the [parse] method it resolves to. *)
Record Language : Type := MkLanguage {
  name : string;
  extensions : list string;
  filename_substitutes : gmap string string;
  parse_method : ParseMethod
}.

(** [language.parse(code)]; [strategy] is what [self.strategy()] returns. *)
Definition parse (l : Language) (strategy : ParsingStrategy) (code : string)
  : option (list section) :=
  match parse_method l with
  | BaseParse => Language_parse strategy code
  | PlainTextParse => Some (PlainText_parse code)
  end.

(** [Language.transform_filename] *)
Definition transform_filename (l : Language) (filename : string) : string :=
  match filename_substitutes l !! filename with
  | Some substitute => substitute
  | None =>
      if existsb (endswith filename) (extensions l) then filename +:+ ".html"
      else filename
  end.

Definition PlainText : Language :=
  MkLanguage "PlainText" [".txt"] {["index.txt" := "index.html"]} PlainTextParse.
Definition Markdown : Language :=
  MkLanguage "Markdown" [".md"] {["index.md" := "index.html"]} PlainTextParse.
Definition C : Language := MkLanguage "C" [".c"; ".cpp"; ".h"; ".cc"] ∅ BaseParse.
Definition JavaScript : Language := MkLanguage "JavaScript" [".js"] ∅ BaseParse.
Definition PHP : Language := MkLanguage "PHP" [".php"] ∅ BaseParse.
Definition Python : Language :=
  MkLanguage "Python" [".py"; ".pyx"] {["__init__.py" := "index.html"]} BaseParse.
Definition Fortran : Language := MkLanguage "Fortran" [".f"; ".f90"] ∅ BaseParse.
Definition Ruby : Language := MkLanguage "Ruby" [".rb"] ∅ BaseParse.
Definition Haskell : Language := MkLanguage "Haskell" [".hs"] ∅ BaseParse.
Definition CoffeeScript : Language := MkLanguage "Coffee-Script" [".coffee"] ∅ BaseParse.
Definition Perl : Language := MkLanguage "Perl" [".pl"] ∅ BaseParse.
Definition SQL : Language := MkLanguage "SQL" [".sql"] ∅ BaseParse.
Definition Scheme : Language := MkLanguage "Scheme" [".scm"] ∅ BaseParse.
Definition Clojure : Language := MkLanguage "Clojure" [".cljs"; ".clj"] ∅ BaseParse.
Definition Lua : Language := MkLanguage "Lua" [".lua"] ∅ BaseParse.
Definition Erlang : Language := MkLanguage "Erlang" [".erl"] ∅ BaseParse.
Definition Tcl : Language := MkLanguage "Tcl" [".tcl"] ∅ BaseParse.

(** ** The registry *)

Definition languages : list Language :=
  [Markdown; Python; Fortran; PHP; C; JavaScript; Ruby; Haskell; Lua; Erlang; Tcl;
   CoffeeScript; Perl; SQL; Scheme; Clojure].

(** [for extension in instance.extensions: mapping[extension] = instance] *)
Definition register (mapping : gmap string Language) (instance : Language)
  : gmap string Language :=
  foldl (fun m extension => <[extension := instance]> m) mapping (extensions instance).

(** The loop at the end of the module, over any list of definitions. *)
Definition build_mapping (definitions : list Language) : gmap string Language :=
  foldl register ∅ definitions.

Definition extensions_mapping : gmap string Language := build_mapping languages.

(** What a call does: it returns a value or raises. *)
Inductive exn : Type :=
| ValueError (message : string).

Inductive outcome (A : Type) : Type :=
| Returns (a : A)
| Raises (e : exn).

Arguments Returns {A} a.
Arguments Raises {A} e.

(** Loading the module: the loop has no [raise], so the mapping is what the
    import leaves. *)
Definition load_languages (definitions : list Language) : outcome (gmap string Language) :=
  Returns (build_mapping definitions).

(** [mapping.values()], in the order the dictionary gives them. *)
Definition values (mapping : gmap string Language) : list Language :=
  (map_to_list mapping).*2.

(** The loop [for l in mapping.values(): if l.name == wanted: return l]. *)
Definition find_by_name (mapping : gmap string Language) (wanted : string)
  : option Language :=
  List.find (fun l => String.eqb (name l) wanted) (values mapping).

(** The pattern of [get_language]: anything, then in group 1 a dot and at
    least one character. *)
Definition extension_re : regex :=
  Seq (Star Dot) (Grp 1 (Seq (Chr ".") (Plus Dot))).

(** [m and m.group(1) in mapping], with the entry found. *)
Definition by_extension (mapping : gmap string Language) (source : string)
  : option Language :=
  match re_match false extension_re (basename source) with
  | Some m => mapping !! group m 1
  | None => None
  end.

Section GetLanguage.

(** [lexers.guess_lexer(code).name] of Pygments; [None] when it raises. *)
Variable guess_lexer_name : string -> option string.

(** [get_language(source, code, language)] over a given mapping. *)
Definition get_language_in (mapping : gmap string Language)
  (source code : string) (language : option string) : outcome (option Language) :=
  match language with
  | Some forced =>
      match find_by_name mapping forced with
      | Some l => Returns (Some l)
      | None => Raises (ValueError ("Unknown forced language: " +:+ forced))
      end
  | None =>
      match by_extension mapping source with
      | Some l => Returns (Some l)
      | None =>
          match guess_lexer_name code with
          | None => Returns None
          | Some guessed => Returns (find_by_name mapping (lower guessed))
          end
      end
  end.

Definition get_language : string -> string -> option string -> outcome (option Language) :=
  get_language_in extensions_mapping.

End GetLanguage.

(** ** Notions the statements use *)

(** The language definition declares the extension. *)
Definition declares (l : Language) (extension : string) : bool :=
  bool_decide (extension ∈ extensions l).

(** A definition that is not among the built-in ones and declares an
    extension that [Python] declares too. *)
Definition Cython : Language := MkLanguage "Cython" [".pyx"] ∅ BaseParse.

(** The comparison of names without regard to case. *)
Definition same_name_ignoring_case (a b : string) : bool := String.eqb (lower a) (lower b).

(** What [merge_down] leaves of the two sections it merges. *)
Definition merged_down (prev cur : section) : section :=
  MkSection (docs_text prev) (code_text cur) (level prev)
    (if nonempty (scope cur) then scope cur else scope prev) (meta prev).

(** What [python_absorb] leaves of a decorator section and the section after
    it: the later section with the documentation and the code of both. *)
Definition absorbed_decorator (prev cur : section) : section :=
  MkSection (docs_text prev +:+ docs_text cur) (code_text prev +:+ code_text cur)
    (level cur) (scope cur) (meta cur).

(** The test of [python_absorb]: the marker [@] is in the scope label. *)
Definition is_decorator (s : section) : bool := contains_char "@" (scope s).

(** No section before the last one is a decorator section. *)
Definition decorators_absorbed (sections : list section) : Prop :=
  forall j s, sections !! j = Some s -> S j < length sections -> is_decorator s = false.

(** The last character of a string, [None] for the empty one. *)
Fixpoint last_char (s : string) : option ascii :=
  match s with
  | EmptyString => None
  | String c s' => match s' with EmptyString => Some c | _ => last_char s' end
  end.

(** Every character of the string satisfies the predicate. *)
Fixpoint all_chars (p : ascii -> bool) (s : string) : bool :=
  match s with
  | EmptyString => true
  | String c s' => p c && all_chars p s'
  end.

(** The state stands in the text: the text is what was read so far followed
    by what remains, the position is the length of what was read, and the
    previous character is its last one. *)
Definition located (text : string) (st : mstate) : Prop :=
  exists pre, text = pre +:+ m_rest st
              /\ m_pos st = String.length pre /\ m_prev st = last_char pre.

(** From [st] to [e] the matcher read [w]. *)
Definition reads (st e : mstate) (w : string) : Prop :=
  m_rest st = w +:+ m_rest e /\ m_pos e = m_pos st + String.length w.


(** A character other than the newline. *)
Definition not_nl (c : ascii) : bool := negb (is_nl c).




(** A match of the inline pattern of Python, as [finditer] reports it:
    what the text holds before it, the lines it covers and what follows. *)
Definition covers_lines (text : string) (m : Match) (pre : string) (lines : list string)
  (post : string) : Prop :=
  text = pre +:+ text_of lines +:+ post
  /\ (pre = EmptyString \/ last_char pre = Some nl)
  /\ match_start m = String.length pre
  /\ match_end m = String.length pre + String.length (text_of lines)
  /\ group m 1 = text_of lines.

(** Three double quotes, the delimiter of a block of documentation. *)
Definition triple_quotes : string :=
  String dquote (String dquote (String dquote EmptyString)).

(** The lines of a code text, the empty ones left out. *)
Definition code_lines (text : string) : list string :=
  List.filter nonempty (split_nl text).

(** The code lines of a section list, section by section in order. *)
Definition all_code_lines (sections : list section) : list string :=
  flat_map (fun s => code_lines (code_text s)) sections.

(** An upper-case letter of ASCII. *)
Definition is_upper (c : ascii) : bool :=
  let n := nat_of_ascii c in ((65 <=? n) && (n <=? 90))%nat.

(** The string has an upper-case letter. *)
Fixpoint has_upper (s : string) : bool :=
  match s with
  | EmptyString => false
  | String c s' => is_upper c || has_upper s'
  end.


(** The non-empty documentation texts of the sections, in order, and the
    non-empty code texts. *)
Definition docs_blocks (sections : list section) : list string :=
  List.filter nonempty (docs_text <$> sections).

Definition code_blocks (sections : list section) : list string :=
  List.filter nonempty (code_text <$> sections).

(** The condition under which [merge_down] merges a section into the one
    before it. *)
Definition merges_down (prev cur : section) : bool :=
  negb (has_code prev) && has_docs prev && negb (has_docs cur) && has_code cur.

(** No two neighbours of the list satisfy the condition. *)
Definition no_neighbours (c : section -> section -> bool) (sections : list section) : Prop :=
  forall i prev cur,
    sections !! i = Some prev -> sections !! S i = Some cur -> c prev cur = false.

(** The condition under which [merge_up] merges a section into the one
    before it, and what it leaves of the two. *)
Definition merges_up (scope_keywords : list regex) (prev cur : section) : bool :=
  negb (has_code cur) && negb (has_docs prev) && has_code prev
  && matches_any scope_keywords (last_line (code_text prev)).

Definition merged_up (prev cur : section) : section := set_docs (docs_text cur) prev.

(** The documentation texts of the sections joined in order, and the code
    texts. *)
Definition all_docs (sections : list section) : string :=
  foldr (fun s text => docs_text s +:+ text) EmptyString sections.

Definition all_code (sections : list section) : string :=
  foldr (fun s text => code_text s +:+ text) EmptyString sections.

(** The condition under which [absorb] merges a section into the one before
    it, and what it leaves of the two. *)
Definition absorbs (prev cur : section) : bool :=
  negb (has_docs cur) && (level prev <? level cur)%nat.

Definition absorbed (prev cur : section) : section :=
  set_code (rstrip_nl (code_text prev) +:+ blank_line +:+ lstrip_nl (code_text cur)) prev.

(** The number of characters at the start of the string that satisfy [p]. *)
Fixpoint leading (p : ascii -> bool) (s : string) : nat :=
  match s with
  | EmptyString => 0
  | String c s' => if p c then S (leading p s') else 0
  end.

(** A comment line of a language: spaces and tabs, the inline delimiter, and
    the rest of the line. *)
Definition comment_line (inline_delimiter : string) (l : string) : Prop :=
  exists blanks rest,
    l = blanks +:+ inline_delimiter +:+ rest
    /\ all_chars is_blank blanks = true /\ all_chars not_nl rest = true.

(** The pattern is anchored at a line start. *)
Definition anchored (r : regex) : bool :=
  match r with
  | Seq Bol _ => true
  | _ => false
  end.

(** Two section lists hold the same documentation texts and the same lines
    of code. *)
Definition same_texts (a b : list section) : Prop :=
  docs_blocks a = docs_blocks b /\ all_code_lines a = all_code_lines b.

















(** * Properties *)

(** ** File names *)

Lemma transform_filename_substitute (l : Language) (filename substitute : string) :
  filename_substitutes l !! filename = Some substitute ->
  transform_filename l filename = substitute.
Proof. intros H. unfold transform_filename. by rewrite H. Qed.

Lemma transform_filename_extension (l : Language) (filename : string) :
  filename_substitutes l !! filename = None ->
  existsb (endswith filename) (extensions l) = true ->
  transform_filename l filename = filename +:+ ".html".
Proof. intros H1 H2. unfold transform_filename. by rewrite H1, H2. Qed.

Lemma transform_filename_other (l : Language) (filename : string) :
  filename_substitutes l !! filename = None ->
  existsb (endswith filename) (extensions l) = false ->
  transform_filename l filename = filename.
Proof. intros H1 H2. unfold transform_filename. by rewrite H1, H2. Qed.

(** C2: a file name that ends with one of the language's extensions keeps
    the extension and gets [.html] appended: [foo.py] becomes
    [foo.py.html], not [foo.html].  The substitution table comes first and
    other names are returned unchanged. *)
Theorem transform_filename_keeps_extension :
  transform_filename Python "foo.py" = "foo.py.html"
  /\ transform_filename Python "__init__.py" = "index.html"
  /\ transform_filename Python "README" = "README".
Proof. repeat split; vm_compute; reflexivity. Qed.

(** ** The registry *)

Lemma register_lookup (mapping : gmap string Language) (instance : Language) (ext : string) :
  register mapping instance !! ext
  = if declares instance ext then Some instance else mapping !! ext.
Proof.
  unfold register, declares.
  generalize dependent mapping.
  induction (extensions instance) as [|e es IH]; intros mapping; simpl.
  - reflexivity.
  - rewrite IH. destruct (decide (ext = e)) as [->|Hne].
    + rewrite lookup_insert_eq.
      rewrite (bool_decide_eq_true_2 (e ∈ e :: es)) by (left).
      by destruct (bool_decide (e ∈ es)).
    + rewrite lookup_insert_ne by done.
      destruct (decide (ext ∈ es)) as [Hin|Hout].
      * rewrite (bool_decide_eq_true_2 _ Hin).
        rewrite (bool_decide_eq_true_2 (ext ∈ e :: es)) by (by right). done.
      * rewrite (bool_decide_eq_false_2 _ Hout).
        rewrite (bool_decide_eq_false_2 (ext ∈ e :: es)); [done|].
        intros [?|?]%elem_of_cons; done.
Qed.

Lemma find_app {A : Type} (f : A -> bool) (l1 l2 : list A) :
  List.find f (l1 ++ l2)
  = match List.find f l1 with Some x => Some x | None => List.find f l2 end.
Proof. induction l1 as [|a l1 IH]; simpl; [done|]. by destruct (f a). Qed.

Lemma foldl_register_lookup (definitions : list Language) (mapping : gmap string Language)
  (ext : string) :
  foldl register mapping definitions !! ext
  = match List.find (fun l => declares l ext) (rev definitions) with
    | Some l => Some l
    | None => mapping !! ext
    end.
Proof.
  generalize dependent mapping.
  induction definitions as [|d ds IH]; intros mapping; simpl.
  - reflexivity.
  - rewrite IH, find_app.
    destruct (List.find _ (rev ds)); [done|]. simpl.
    rewrite register_lookup. by destruct (declares d ext).
Qed.

(** C3, the claim as stated fails: two definitions with different names
    that both declare [.pyx] load without an error, and the registry that
    results maps the extension to the second one. *)
Lemma duplicate_extension_loads :
  declares Python ".pyx" = true /\ declares Cython ".pyx" = true
  /\ String.eqb (name Python) (name Cython) = false
  /\ exists mapping, load_languages [Python; Cython] = Returns mapping
       /\ mapping !! ".pyx" = Some Cython.
Proof.
  repeat split; try (vm_compute; reflexivity).
  eexists. split; [reflexivity|]. vm_compute. reflexivity.
Qed.

(** C3, amended: loading never raises; the registry maps an extension to the
    last definition of the list that declares it, and to nothing when none
    does.  No two built-in definitions declare the same extension. *)
Theorem registry_last_definition_wins (definitions : list Language) (ext : string) :
  load_languages definitions = Returns (build_mapping definitions)
  /\ build_mapping definitions !! ext
     = List.find (fun l => declares l ext) (rev definitions)
  /\ NoDup (concat (extensions <$> languages)).
Proof.
  split; [reflexivity|]. split.
  - unfold build_mapping. rewrite foldl_register_lookup.
    rewrite lookup_empty. by destruct (List.find _ _).
  - compute_done.
Qed.

(** ** Looking a language up *)

Lemma find_by_name_Some (mapping : gmap string Language) (wanted : string) (l : Language) :
  find_by_name mapping wanted = Some l -> l ∈ values mapping /\ name l = wanted.
Proof.
  unfold find_by_name. intros [Hin Heq]%find_some.
  split; [by apply list_elem_of_In|]. by apply String.eqb_eq.
Qed.

Lemma find_by_name_None (mapping : gmap string Language) (wanted : string) :
  find_by_name mapping wanted = None <->
  Forall (fun l => name l <> wanted) (values mapping).
Proof.
  unfold find_by_name. split.
  - intros H. apply Forall_forall. intros l Hl Heq.
    apply list_elem_of_In in Hl.
    pose proof (find_none _ _ H l Hl) as Hf. simpl in Hf.
    apply String.eqb_neq in Hf. done.
  - intros H. induction (values mapping) as [|l ls IH]; simpl; [done|].
    inversion H as [|? ? Hl Hls]; subst.
    destruct (String.eqb_spec (name l) wanted); [done|]. by apply IH.
Qed.

(** C4, the claim as stated fails: the forced name [python] matches the name
    of the built-in definition [Python] when case is ignored, and the lookup
    raises all the same. *)
Lemma forced_name_is_case_sensitive :
  existsb (fun l => same_name_ignoring_case (name l) "python") (values extensions_mapping)
  = true
  /\ get_language (fun _ => None) "prog.py" EmptyString (Some "python")
     = Raises (ValueError "Unknown forced language: python").
Proof. split; vm_compute; reflexivity. Qed.

(** C4, amended: with a forced name the lookup returns a definition of the
    registry whose name is the forced name exactly, case included, and it
    raises the unknown-forced-language error exactly when no definition of
    the registry has that very name. *)
Theorem get_language_forced_exact (guess : string -> option string)
  (mapping : gmap string Language) (source code forced : string) :
  match get_language_in guess mapping source code (Some forced) with
  | Returns (Some l) => l ∈ values mapping /\ name l = forced
  | Returns None => False
  | Raises e =>
      e = ValueError ("Unknown forced language: " +:+ forced)
      /\ Forall (fun l => name l <> forced) (values mapping)
  end.
Proof.
  simpl. destruct (find_by_name mapping forced) as [l|] eqn:Hfind.
  - by apply find_by_name_Some.
  - split; [reflexivity|]. by apply find_by_name_None.
Qed.

(** C9: with no forced language, a source whose extension the registry does
    not know, and a content that the highlighter cannot guess or guesses as a
    name no definition has, the lookup returns [None]; it does not raise. *)
Theorem get_language_not_found (guess : string -> option string)
  (mapping : gmap string Language) (source code : string) :
  by_extension mapping source = None ->
  match guess code with
  | None => True
  | Some guessed => Forall (fun l => name l <> lower guessed) (values mapping)
  end ->
  get_language_in guess mapping source code None = Returns None.
Proof.
  intros Hext Hguess. simpl. rewrite Hext.
  destruct (guess code) as [guessed|]; [|reflexivity].
  apply find_by_name_None in Hguess. by rewrite Hguess.
Qed.

Lemma get_language_not_found_witness :
  by_extension extensions_mapping "notes.xyz" = None
  /\ get_language (fun _ => Some "Text only") "notes.xyz" "hello" None = Returns None
  /\ get_language (fun _ => None) "notes.xyz" "hello" None = Returns None.
Proof.
  split; [vm_compute; reflexivity|]. split.
  - apply (get_language_not_found (fun _ => Some "Text only") extensions_mapping
             "notes.xyz" "hello").
    + vm_compute; reflexivity.
    + apply (bool_decide_unpack _). vm_compute. exact I.
  - apply (get_language_not_found (fun _ => None) extensions_mapping "notes.xyz" "hello").
    + vm_compute; reflexivity.
    + exact I.
Defined.

(** ** Plain text *)

(** C10: for [PlainText] and [Markdown], whatever the strategy, [parse]
    returns one section whose documentation is the whole input and whose
    code is empty. *)
Theorem plain_text_parse_is_one_docs_section (strategy : ParsingStrategy) (code : string) :
  parse PlainText strategy code = Some [MkSection code EmptyString 0 EmptyString None]
  /\ parse Markdown strategy code = Some [MkSection code EmptyString 0 EmptyString None].
Proof. split; reflexivity. Qed.

(** ** Merging documentation down *)

(** [sections[i-1] = x] followed by [sections[i:i+1] = []]. *)
Lemma delete_insert_previous {A : Type} (l : list A) (i : nat) (x p c : A) :
  0 < i -> l !! (i - 1) = Some p -> l !! i = Some c ->
  delete i (<[i - 1 := x]> l) = take (i - 1) l ++ x :: drop (S i) l.
Proof.
  revert i. induction l as [|a l IH]; intros i Hi Hp Hc; [done|].
  destruct i as [|[|i]]; [lia| |].
  - destruct l as [|b l]; [done|]. reflexivity.
  - replace (S (S i) - 1) with (S i) in * by lia.
    specialize (IH (S i)). replace (S i - 1) with i in IH by lia.
    simpl in *. f_equal. apply IH; [lia|done|done].
Qed.

(** C5, the claim as stated fails: a documentation section labelled [class]
    followed by a code section labelled [def] merges into one section that
    is labelled [def]; the previous label did not lack and changed. *)
Lemma merge_down_takes_current_label :
  merge_down_at
    [MkSection "doc" EmptyString 0 "class" None; MkSection EmptyString "code" 0 "def" None] 1
  = ([MkSection "doc" "code" 0 "def" None], None)
  /\ merge_down
       [MkSection "doc" EmptyString 0 "class" None; MkSection EmptyString "code" 0 "def" None]
     = Some [MkSection "doc" "code" 0 "def" None].
Proof. split; vm_compute; reflexivity. Qed.

(** C5, amended: where the previous section has documentation and no code
    and the current one has code and no documentation, [merge_down] gives
    the previous section the code of the current one (which, the previous
    having none, is the two codes joined), deletes the current section and
    leaves the others alone; the label of the merged section is the current
    section's label when that one is not empty, and the previous section's
    label otherwise. *)
Theorem merge_down_at_merges (sections : list section) (i : nat) (prev cur : section) :
  0 < i ->
  sections !! (i - 1) = Some prev ->
  sections !! i = Some cur ->
  has_docs prev = true -> has_code prev = false ->
  has_code cur = true -> has_docs cur = false ->
  merge_down_at sections i
  = (take (i - 1) sections ++ merged_down prev cur :: drop (S i) sections, None)
  /\ code_text (merged_down prev cur) = code_text prev +:+ code_text cur.
Proof.
  intros Hi Hprev Hcur Hd Hc Hc' Hd'. split.
  - unfold merge_down_at. rewrite Hprev, Hcur, Hd, Hc, Hc', Hd'. simpl.
    f_equal. by eapply delete_insert_previous.
  - unfold has_code in Hc. simpl. by destruct (code_text prev).
Qed.

Lemma merge_down_at_merges_witness :
  merge_down_at
    [MkSection "doc" EmptyString 0 EmptyString None; MkSection EmptyString "code" 4 "def" None;
     MkSection EmptyString "more" 0 EmptyString None] 1
  = ([MkSection "doc" "code" 0 "def" None; MkSection EmptyString "more" 0 EmptyString None],
     None)
  /\ code_text (MkSection "doc" "code" 0 "def" None) = "code".
Proof.
  exact (merge_down_at_merges
           [MkSection "doc" EmptyString 0 EmptyString None;
            MkSection EmptyString "code" 4 "def" None;
            MkSection EmptyString "more" 0 EmptyString None] 1
           (MkSection "doc" EmptyString 0 EmptyString None)
           (MkSection EmptyString "code" 4 "def" None)
           (Nat.lt_0_succ 0) eq_refl eq_refl eq_refl eq_refl eq_refl eq_refl).
Defined.

(** ** The final filter *)


(** ** Decorators *)

Lemma python_absorb_at_decorator (sections : list section) (i : nat) (prev cur : section) :
  sections !! (i - 1) = Some prev -> sections !! i = Some cur ->
  is_decorator prev = true ->
  python_absorb_at sections i
  = (take (i - 1) sections ++ absorbed_decorator prev cur :: drop (S i) sections, Some i).
Proof.
  intros Hp Hc Hd. unfold python_absorb_at, is_decorator in *. by rewrite Hp, Hc, Hd.
Qed.

Lemma python_absorb_at_other (sections : list section) (i : nat) (prev : section) :
  sections !! (i - 1) = Some prev -> is_decorator prev = false ->
  python_absorb_at sections i = (sections, None).
Proof.
  intros Hp Hd. unfold python_absorb_at, is_decorator in *. rewrite Hp, Hd.
  by destruct (sections !! i).
Qed.

Lemma iterate_python_absorb (fuel i : nat) (sections : list section) :
  0 < i -> length sections < fuel + i ->
  (forall j s, sections !! j = Some s -> S j < i -> is_decorator s = false) ->
  exists out, iterate_from python_absorb_at fuel i sections = Some out
              /\ decorators_absorbed out.
Proof.
  revert i sections. induction fuel as [|fuel IH]; intros i sections Hi Hfuel Hinv.
  - exists sections. simpl. rewrite (proj2 (Nat.leb_le _ _)) by lia.
    split; [done|]. intros j s Hj Hlast. apply (Hinv j s Hj). lia.
  - simpl. destruct (Nat.leb_spec (length sections) i) as [Hle|Hlt].
    + exists sections. split; [done|]. intros j s Hj Hlast. apply (Hinv j s Hj). lia.
    + destruct (lookup_lt_is_Some_2 sections (i - 1)) as [prev Hp]; [lia|].
      destruct (lookup_lt_is_Some_2 sections i) as [cur Hc]; [lia|].
      destruct (is_decorator prev) eqn:Hd.
      * rewrite (python_absorb_at_decorator sections i prev cur Hp Hc Hd). simpl.
        apply IH; [done| |].
        -- rewrite length_app, length_take. simpl. rewrite length_drop. lia.
        -- intros j s Hj Hlt'. apply (Hinv j s); [|done].
           rewrite lookup_app_l in Hj by (rewrite length_take; lia).
           by rewrite lookup_take_lt in Hj by lia.
      * rewrite (python_absorb_at_other sections i prev Hp Hd). simpl.
        apply IH; [lia|lia|].
        intros j s Hj Hlt'. destruct (decide (j = i - 1)) as [->|Hne].
        -- rewrite Hp in Hj. by injection Hj as <-.
        -- apply (Hinv j s Hj). lia.
Qed.

Lemma python_absorb_total (sections : list section) :
  exists out, python_absorb sections = Some out /\ decorators_absorbed out.
Proof.
  unfold python_absorb, iterate_sections.
  apply iterate_python_absorb; [lia| |].
  - unfold iteration_bound. lia.
  - intros j s _ Hj. lia.
Qed.

(** C7: in the strategy of Python the pass [python_absorb] stands right
    before [absorb], the last pass.  Where the section before [sections[i]]
    has a label with the decorator marker, the pass puts its documentation
    and code in front of those of [sections[i]], deletes it and stays at
    [i]; run over any section list it ends, and then no section but
    possibly the last one is a decorator section.  The input of a decorator
    line and a [def] line parses to one section, which holds both lines and
    is labelled [def]. *)
Theorem python_absorb_merges_decorators :
  Python_strategy.*1
  = ["parse_multiline"; "parse_inline"; "set_sections_levels"; "strip_docs_indentation";
     "set_sections_levels"; "split_by_scopes"; "merge_up"; "set_sections_levels";
     "merge_down"; "set_sections_levels"; "python_absorb"; "absorb"]
  /\ (forall sections i prev cur,
        sections !! (i - 1) = Some prev -> sections !! i = Some cur ->
        is_decorator prev = true ->
        python_absorb_at sections i
        = (take (i - 1) sections ++ absorbed_decorator prev cur :: drop (S i) sections,
           Some i))
  /\ (forall sections,
        exists out, python_absorb sections = Some out /\ decorators_absorbed out)
  /\ Python_parse (text_of ["@deco"; "def f(): pass"])
     = Some [MkSection EmptyString ("@deco" +:+ String nl "def f(): pass") 0 "def" None].
Proof.
  split; [|split; [|split]].
  - reflexivity.
  - apply python_absorb_at_decorator.
  - apply python_absorb_total.
  - vm_compute. reflexivity.
Qed.

Lemma python_absorb_merges_decorators_witness :
  python_absorb_at
    [MkSection EmptyString (text_of ["@deco"]) 0 "@deco" None;
     MkSection EmptyString "def f(): pass" 0 "def" None] 1
  = ([MkSection EmptyString ("@deco" +:+ String nl "def f(): pass") 0 "def" None], Some 1).
Proof.
  exact (proj1 (proj2 python_absorb_merges_decorators)
           [MkSection EmptyString (text_of ["@deco"]) 0 "@deco" None;
            MkSection EmptyString "def f(): pass" 0 "def" None] 1
           (MkSection EmptyString (text_of ["@deco"]) 0 "@deco" None)
           (MkSection EmptyString "def f(): pass" 0 "def" None)
           eq_refl eq_refl eq_refl).
Defined.

(** ** Facts on strings *)

Local Arguments String.append !_ _ / : simpl nomatch.

Lemma string_app_nil_r (s : string) : s +:+ EmptyString = s.
Proof. induction s as [|c s IH]; simpl; [done|]. by rewrite IH. Qed.

Lemma string_app_assoc (s1 s2 s3 : string) : (s1 +:+ s2) +:+ s3 = s1 +:+ (s2 +:+ s3).
Proof. induction s1 as [|c s1 IH]; simpl; [done|]. by rewrite IH. Qed.

Lemma string_app_length (s1 s2 : string) :
  String.length (s1 +:+ s2) = String.length s1 + String.length s2.
Proof. induction s1 as [|c s1 IH]; simpl; [done|]. by rewrite IH. Qed.

Lemma string_app_cons (s1 : string) (c : ascii) (s2 : string) :
  s1 +:+ String c s2 = (s1 +:+ String c EmptyString) +:+ s2.
Proof. by rewrite string_app_assoc. Qed.

Lemma substring_app_middle (pre w post : string) :
  substring (String.length pre) (String.length w) (pre +:+ w +:+ post) = w.
Proof.
  induction pre as [|c pre IH]; simpl.
  - induction w as [|a w IHw]; simpl; [by destruct post|]. by rewrite IHw.
  - apply IH.
Qed.

Lemma last_char_app (s : string) (c : ascii) :
  last_char (s +:+ String c EmptyString) = Some c.
Proof.
  induction s as [|a s IH]; simpl; [done|].
  rewrite IH. by destruct s.
Qed.

Lemma all_chars_app (p : ascii -> bool) (s1 s2 : string) :
  all_chars p (s1 +:+ s2) = all_chars p s1 && all_chars p s2.
Proof. induction s1 as [|c s1 IH]; simpl; [done|]. rewrite IH. by destruct (p c). Qed.


(** ** Facts on the matcher *)

Lemma located_eat (text : string) (st : mstate) (a : ascii) (s : string) :
  m_rest st = String a s -> located text st -> located text (eat a s st).
Proof.
  intros Hrest (pre & Ht & Hp & _). exists (pre +:+ String a EmptyString). simpl.
  rewrite Hrest in Ht. rewrite string_app_assoc. simpl.
  split; [done|]. split.
  - rewrite string_app_length. simpl. lia.
  - by rewrite last_char_app.
Qed.

Lemma located_close_group (text : string) (n from : nat) (st : mstate) :
  located text st -> located text (close_group n from st).
Proof. intros (pre & ? & ? & ?). by exists pre. Qed.

Lemma in_star_loop (step : mstate -> list mstate) (P : mstate -> Prop) (fuel : nat)
  (st e : mstate) :
  (forall st1 st2, P st1 -> In st2 (step st1) -> P st2) ->
  P st -> In e (star_loop step fuel st) -> P e.
Proof.
  intros Hstep. revert st. induction fuel as [|fuel IH]; intros st Hst; simpl.
  - intros [<-|[]]. done.
  - intros [Hin|[<-|[]]]%in_app_or; [|done].
    apply in_flat_map in Hin as (st' & Hst' & Hin).
    destruct (m_pos st' =? m_pos st)%nat; [done|].
    apply (IH st'); [|done]. by apply (Hstep st).
Qed.

Lemma rmatch_located (multiline : bool) (text : string) (r : regex) (st e : mstate) :
  located text st -> In e (rmatch multiline r st) -> located text e.
Proof.
  revert st e. induction r as [|c|p|r1 IH1 r2 IH2|r1 IH1 r2 IH2|r IH|n r IH| | |r IH|r IH];
    intros st e Hst; cbn [rmatch].
  - intros [<-|[]]. done.
  - destruct (m_rest st) as [|a s] eqn:Hrest; [done|].
    destruct (Ascii.eqb a c); [|done]. intros [<-|[]]. by apply located_eat.
  - destruct (m_rest st) as [|a s] eqn:Hrest; [done|].
    destruct (p a); [|done]. intros [<-|[]]. by apply located_eat.
  - intros (st' & Hst' & Hin)%in_flat_map. eauto.
  - intros [Hin|Hin]%in_app_or; eauto.
  - apply in_star_loop; [|done]. intros st1 st2 H1 H2. eauto.
  - intros (e' & <- & Hin)%in_map_iff. apply located_close_group. eauto.
  - destruct (at_bol multiline st); [|done]. intros [<-|[]]. done.
  - destruct (at_eol multiline st); [|done]. intros [<-|[]]. done.
  - destruct (rmatch multiline r st); [|done]. intros [<-|[]]. done.
  - destruct (rmatch multiline r st); [done|]. intros [<-|[]]. done.
Qed.

Lemma reads_refl (st : mstate) : reads st st EmptyString.
Proof. split; simpl; [done|lia]. Qed.

Lemma reads_trans (st1 st2 st3 : mstate) (w1 w2 : string) :
  reads st1 st2 w1 -> reads st2 st3 w2 -> reads st1 st3 (w1 +:+ w2).
Proof.
  intros [H1 P1] [H2 P2]. split.
  - by rewrite H1, H2, string_app_assoc.
  - rewrite string_app_length. lia.
Qed.

Lemma reads_eat (st : mstate) (a : ascii) (s : string) :
  m_rest st = String a s -> reads st (eat a s st) (String a EmptyString).
Proof. intros H. split; simpl; [done|lia]. Qed.

Lemma star_cls_reads (multiline : bool) (p : ascii -> bool) (st e : mstate) :
  In e (rmatch multiline (Star (Cls p)) st) ->
  exists w, reads st e w /\ all_chars p w = true.
Proof.
  cbn [rmatch].
  apply (in_star_loop _ (fun e => exists w, reads st e w /\ all_chars p w = true)).
  - intros st1 st2 (w & Hr & Hw). cbn [rmatch].
    destruct (m_rest st1) as [|a s] eqn:Hrest; [done|].
    destruct (p a) eqn:Hp; [|done]. intros [<-|[]].
    exists (w +:+ String a EmptyString). split.
    + eapply reads_trans; [done|]. by apply reads_eat.
    + rewrite all_chars_app, Hw. simpl. by rewrite Hp.
  - exists EmptyString. split; [apply reads_refl|done].
Qed.




Lemma blank_not_nl (b : ascii) : is_blank b = true -> not_nl b = true.
Proof.
  unfold is_blank, not_nl. intros [H|H]%orb_true_iff; apply Ascii.eqb_eq in H; by subst.
Qed.


Lemma text_of_app (ls1 ls2 : list string) :
  text_of (ls1 ++ ls2) = text_of ls1 +:+ text_of ls2.
Proof.
  induction ls1 as [|l ls1 IH]; simpl; [done|].
  by rewrite IH, string_app_assoc.
Qed.



Lemma located_groups (text : string) (st : mstate) (groups : list (nat * (nat * nat))) :
  located text st -> located text (MState (m_prev st) (m_pos st) (m_rest st) groups).
Proof. intros (pre & ? & ? & ?). by exists pre. Qed.

(** What [search_at] finds is a match from a state that stands in the text. *)
Lemma search_at_found (multiline : bool) (text : string) (r : regex) (s : string)
  (prev : option ascii) (pos b : nat) (e : mstate) :
  located text (MState prev pos s []) ->
  search_at multiline r prev pos s = Some (b, e) ->
  exists st, located text st /\ m_groups st = [] /\ m_pos st = b
             /\ In e (rmatch multiline r st).
Proof.
  revert prev pos. induction s as [|c s IH]; intros prev pos Hloc; simpl.
  - destruct (rmatch _ _ _) as [|e' l] eqn:Hm; [done|].
    intros [= <- <-]. eexists. split; [done|]. rewrite Hm. repeat split. by left.
  - destruct (rmatch _ _ _) as [|e' l] eqn:Hm.
    + apply IH. by apply (located_eat text (MState prev pos (String c s) []) c s).
    + intros [= <- <-]. eexists. split; [done|]. rewrite Hm. repeat split. by left.
Qed.

(** Every match [finditer] reports is a match from a state that stands in
    the text. *)
Lemma finditer_from_found (multiline : bool) (text : string) (r : regex) (fuel : nat)
  (prev : option ascii) (pos : nat) (s : string) (m : Match) :
  located text (MState prev pos s []) ->
  In m (finditer_from multiline r text fuel prev pos s) ->
  exists st e, located text st /\ m_groups st = [] /\ In e (rmatch multiline r st)
               /\ m = mk_match text (m_pos st, e).
Proof.
  revert prev pos s. induction fuel as [|fuel IH]; intros prev pos s Hloc; simpl; [done|].
  destruct (search_at _ _ _ _ _) as [[b e]|] eqn:Hsearch; [|done].
  destruct (search_at_found _ _ _ _ _ _ _ _ Hloc Hsearch) as (st & Hst & Hg & Hb & He).
  intros [<-|Hin].
  - exists st, e. by rewrite Hb.
  - pose proof (rmatch_located _ _ _ _ _ Hst He) as Hloc'.
    destruct (Nat.eqb_spec (m_pos e) b) as [Heq|Hne].
    + destruct (m_rest e) as [|c s'] eqn:Hrest; [done|].
      apply (IH _ _ _) in Hin; [done|].
      rewrite <- Heq.
      apply (located_eat text (MState (m_prev e) (m_pos e) (String c s') []) c s');
        [done|].
      rewrite <- Hrest. by apply located_groups.
    + apply (IH _ _ _) in Hin; [done|]. by apply located_groups.
Qed.

Lemma last_char_None (s : string) : last_char s = None -> s = EmptyString.
Proof.
  induction s as [|c s IH]; simpl; [done|].
  destruct s as [|c' s]; [done|]. intros H. by specialize (IH H).
Qed.

Lemma at_bol_line_start (st : mstate) (pre : string) :
  at_bol true st = true -> m_prev st = last_char pre ->
  pre = EmptyString \/ last_char pre = Some nl.
Proof.
  unfold at_bol. intros Hbol Hprev. rewrite Hprev in Hbol.
  destruct (last_char pre) as [c|] eqn:Hlast.
  - right. simpl in Hbol. apply Ascii.eqb_eq in Hbol. by subst.
  - left. by apply last_char_None.
Qed.




(** A shebang line between two lines of three double quotes never reaches
    the inline comment pass: the block comment pass, which runs first, takes
    it; it ends in the documentation of the one section [parse] returns,
    whose code is a single newline. *)
Example shebang_in_block_comment_is_documentation :
  Python_parse (text_of [triple_quotes; "#!/usr/bin/env x"; triple_quotes])
  = Some [MkSection (String nl (text_of ["#!/usr/bin/env x"])) (text_of [EmptyString])
            0 EmptyString stripped].
Proof. vm_compute. reflexivity. Qed.

(** ** Code lines *)

(** C1: a decorator that closes a stretch of code, with a comment between
    it and its [def], is glued to the [def] line.  [split_by_scopes] cuts
    the decorator off and strips the newline that ended it, and
    [python_absorb] joins the decorator's code and the next section's with
    nothing between them: the code lines [@deco] and [def f(): pass] of the
    input come back as the one line [@decodef f(): pass]. *)
Theorem python_absorb_glues_decorator_line :
  python_absorb_at
    [MkSection EmptyString "@deco" 0 "@deco" None;
     MkSection (text_of ["c"]) (text_of ["def f(): pass"]) 0 "def" None] 1
  = ([MkSection (text_of ["c"]) ("@deco" +:+ text_of ["def f(): pass"]) 0 "def" None],
     Some 1)
  /\ Python_parse (text_of ["x = 1"; "@deco"; "# c"; "def f(): pass"])
     = Some [MkSection EmptyString (text_of ["x = 1"]) 0 EmptyString stripped;
             MkSection (text_of ["c"]) (text_of ["@decodef f(): pass"]) 0 "def" stripped]
  /\ (all_code_lines <$> Python_parse (text_of ["x = 1"; "@deco"; "# c"; "def f(): pass"]))
     = Some ["x = 1"; "@decodef f(): pass"]
  /\ code_lines (text_of ["x = 1"; "@deco"; "def f(): pass"])
     = ["x = 1"; "@deco"; "def f(): pass"].
Proof. repeat split; vm_compute; reflexivity. Qed.

(** ** The pipeline on small inputs *)

(** Documentation right under a [def] line goes up into the section of the
    [def], and the deeper code after it is absorbed into that section. *)
Example documentation_under_def_merges_up :
  Python_parse (text_of ["def f():"; "    # doc"; "    pass"])
  = Some [MkSection (text_of ["doc"]) (text_of ["def f():"; ""; "    pass"]) 0 "def" stripped].
Proof. vm_compute. reflexivity. Qed.

(** The registry knows the extensions of Python and nothing for [.txt]:
    [PlainText] is not among the registered definitions. *)
Example registry_lookups :
  extensions_mapping !! ".py" = Some Python
  /\ extensions_mapping !! ".pyx" = Some Python
  /\ extensions_mapping !! ".md" = Some Markdown
  /\ extensions_mapping !! ".txt" = None.
Proof. repeat split; vm_compute; reflexivity. Qed.

(** ** More on the registry *)

Lemma values_lookup (mapping : gmap string Language) (key : string) (l : Language) :
  mapping !! key = Some l -> l ∈ values mapping.
Proof.
  intros H. unfold values. apply list_elem_of_fmap. exists (key, l).
  split; [done|]. by apply elem_of_map_to_list.
Qed.

(** X1: whatever the list of definitions, the registry holds an extension
    exactly when some definition of the list declares it, and the definition
    it gives for an extension is one of the list that declares it. *)
Theorem registry_sound_and_complete (definitions : list Language) (ext : string) :
  (is_Some (build_mapping definitions !! ext)
   <-> exists l, l ∈ definitions /\ ext ∈ extensions l)
  /\ (forall l, build_mapping definitions !! ext = Some l ->
                l ∈ definitions /\ ext ∈ extensions l).
Proof.
  assert (Hsound : forall l, build_mapping definitions !! ext = Some l ->
                             l ∈ definitions /\ ext ∈ extensions l).
  { intros l. unfold build_mapping. rewrite foldl_register_lookup, lookup_empty.
    destruct (List.find _ _) as [l'|] eqn:Hfind; [|done].
    intros [= <-]. apply find_some in Hfind as [Hin Hd].
    split.
    - apply list_elem_of_In. by apply in_rev.
    - unfold declares in Hd. by apply bool_decide_eq_true_1 in Hd. }
  split; [|done]. split.
  - intros [l Hl]. exists l. by apply Hsound.
  - intros (l & Hin & Hext). unfold build_mapping.
    rewrite foldl_register_lookup, lookup_empty.
    destruct (List.find _ _) as [l'|] eqn:Hfind; [done|]. exfalso.
    apply list_elem_of_In, in_rev in Hin.
    pose proof (find_none _ _ Hfind l Hin) as Hd. simpl in Hd.
    unfold declares in Hd. by apply bool_decide_eq_false_1 in Hd.
Qed.

Lemma registry_sound_and_complete_witness :
  Python ∈ [Cython; Python] /\ ".pyx" ∈ extensions Python.
Proof.
  apply (proj2 (registry_sound_and_complete [Cython; Python] ".pyx") Python).
  vm_compute. reflexivity.
Defined.

(** ** More on looking a language up *)

Lemma lower_char_not_upper (c : ascii) : is_upper (lower_char c) = false.
Proof. destruct c as [[] [] [] [] [] [] [] []]; reflexivity. Qed.

Lemma lower_has_no_upper (s : string) : has_upper (lower s) = false.
Proof.
  induction s as [|c s IH]; simpl; [done|].
  by rewrite lower_char_not_upper, IH.
Qed.

Lemma builtin_names_have_upper :
  Forall (fun l => has_upper (name l) = true) (values extensions_mapping).
Proof. apply (bool_decide_unpack _). vm_compute. exact I. Qed.

(** X2: with no forced language and an extension the registry does not
    know, the lookup returns [None] whatever the content and whatever the
    highlighter guesses: the guessed name is put in lower case and compared
    with the names of the definitions as they are, and each built-in name
    has an upper-case letter. *)
Theorem content_guess_never_matches (guess : string -> option string)
  (source code : string) :
  by_extension extensions_mapping source = None ->
  get_language guess source code None = Returns None.
Proof.
  intros Hext. unfold get_language. simpl. rewrite Hext.
  destruct (guess code) as [guessed|]; [|reflexivity].
  assert (Hnone : find_by_name extensions_mapping (lower guessed) = None).
  { apply find_by_name_None.
    eapply Forall_impl; [apply builtin_names_have_upper|].
    intros l Hup Heq. simpl in Hup.
    rewrite Heq, lower_has_no_upper in Hup. done. }
  by rewrite Hnone.
Qed.

Lemma content_guess_never_matches_witness :
  get_language (fun _ => Some "Python") "Makefile" "print 1" None = Returns None.
Proof.
  apply (content_guess_never_matches (fun _ => Some "Python") "Makefile" "print 1").
  vm_compute. reflexivity.
Defined.

(** X3: with no forced language the lookup never raises, over any registry
    and any guess, and a definition it returns is one of the registry. *)
Theorem get_language_unforced_returns (guess : string -> option string)
  (mapping : gmap string Language) (source code : string) :
  exists result,
    get_language_in guess mapping source code None = Returns result
    /\ match result with
       | Some l => l ∈ values mapping
       | None => True
       end.
Proof.
  simpl. destruct (by_extension mapping source) as [l|] eqn:Hext.
  - exists (Some l). split; [done|]. unfold by_extension in Hext.
    destruct (re_match _ _ _) as [m|]; [|done]. by eapply values_lookup.
  - destruct (guess code) as [guessed|]; [|by exists None].
    destruct (find_by_name mapping (lower guessed)) as [l|] eqn:Hfind.
    + exists (Some l). split; [done|]. by apply find_by_name_Some in Hfind as [? _].
    + by exists None.
Qed.

(** X4: forcing the name of any registered built-in definition returns that
    definition, whatever the source and the content; [PlainText], a class
    that is not in the list of registered languages, cannot be forced. *)
Theorem forced_builtin_names (guess : string -> option string) (source code : string) :
  Forall (fun l => get_language guess source code (Some (name l)) = Returns (Some l))
    languages
  /\ get_language guess source code (Some "PlainText")
     = Raises (ValueError "Unknown forced language: PlainText").
Proof.
  split.
  - unfold languages.
    repeat (apply Forall_cons; split; [vm_compute; reflexivity|]).
    constructor.
  - vm_compute. reflexivity.
Qed.

(** ** Iterations that end *)

(** An iteration whose every round keeps an invariant of the list and the
    index, and brings the index closer to the end of the list, ends with the
    invariant at an index past the end. *)
Lemma iterate_from_invariant (f : step) (I : nat -> list section -> Prop) (lo : nat) :
  (forall sections i, lo <= i < length sections -> I i sections ->
     I (default (S i) (f sections i).2) (f sections i).1
     /\ lo <= default (S i) (f sections i).2
     /\ length (f sections i).1 - default (S i) (f sections i).2 < length sections - i) ->
  forall fuel i sections,
    lo <= i -> length sections - i <= fuel -> I i sections ->
    exists out j, iterate_from f fuel i sections = Some out /\ length out <= j /\ I j out.
Proof.
  intros Hstep fuel. induction fuel as [|fuel IH]; intros i sections Hlo Hfuel HI; simpl.
  - rewrite (proj2 (Nat.leb_le _ _)) by lia. exists sections, i. split; [done|]. split; [lia|done].
  - destruct (Nat.leb_spec (length sections) i) as [Hle|Hlt]; [by exists sections, i|].
    destruct (Hstep sections i) as (HI' & Hlo' & Hdec); [lia|done|].
    destruct (f sections i) as [sections' next]. simpl in *.
    apply IH; [done|lia|done].
Qed.

Lemma iterate_sections_invariant (f : step) (I : nat -> list section -> Prop) (start : nat) :
  (forall sections i, start <= i < length sections -> I i sections ->
     I (default (S i) (f sections i).2) (f sections i).1
     /\ start <= default (S i) (f sections i).2
     /\ length (f sections i).1 - default (S i) (f sections i).2 < length sections - i) ->
  forall sections, I start sections ->
    exists out j, iterate_sections start f sections = Some out /\ length out <= j /\ I j out.
Proof.
  intros Hstep sections HI. unfold iterate_sections.
  apply (iterate_from_invariant f I start Hstep); [done| |done].
  unfold iteration_bound. lia.
Qed.

(** ** Neighbours *)

Lemma neighbours_split {A : Type} (l : list A) (i : nat) (p c : A) :
  0 < i -> l !! (i - 1) = Some p -> l !! i = Some c ->
  l = take (i - 1) l ++ p :: c :: drop (S i) l.
Proof.
  intros Hi Hp Hc. rewrite <- (take_drop (i - 1) l) at 1. f_equal.
  rewrite (drop_S l p (i - 1) Hp). f_equal.
  replace (S (i - 1)) with i by lia. by apply drop_S.
Qed.

Lemma neighbours_exist {A : Type} (l : list A) (i : nat) :
  0 < i < length l ->
  exists p c, l !! (i - 1) = Some p /\ l !! i = Some c.
Proof.
  intros Hi.
  destruct (lookup_lt_is_Some_2 l (i - 1)) as [p Hp]; [lia|].
  destruct (lookup_lt_is_Some_2 l i) as [c Hc]; [lia|].
  by exists p, c.
Qed.

Lemma docs_blocks_app (a b : list section) :
  docs_blocks (a ++ b) = docs_blocks a ++ docs_blocks b.
Proof. unfold docs_blocks. by rewrite fmap_app, List.filter_app. Qed.

Lemma code_blocks_app (a b : list section) :
  code_blocks (a ++ b) = code_blocks a ++ code_blocks b.
Proof. unfold code_blocks. by rewrite fmap_app, List.filter_app. Qed.

Lemma merge_down_at_cases (sections : list section) (i : nat) :
  0 < i < length sections ->
  exists prev cur,
    sections !! (i - 1) = Some prev /\ sections !! i = Some cur
    /\ ((merges_down prev cur = false /\ merge_down_at sections i = (sections, None))
        \/ (merges_down prev cur = true
            /\ merge_down_at sections i
               = (take (i - 1) sections ++ merged_down prev cur :: drop (S i) sections,
                  None))).
Proof.
  intros Hi. destruct (neighbours_exist sections i Hi) as (prev & cur & Hp & Hc).
  exists prev, cur. split; [done|]. split; [done|].
  unfold merge_down_at. rewrite Hp, Hc. fold (merges_down prev cur).
  destruct (merges_down prev cur); [right|left]; split; try done.
  f_equal. eapply delete_insert_previous; [lia|done|done].
Qed.

Lemma merged_length {A : Type} (l : list A) (i : nat) (x : A) :
  0 < i < length l -> length (take (i - 1) l ++ x :: drop (S i) l) = length l - 1.
Proof.
  intros Hi. rewrite length_app, length_take. simpl. rewrite length_drop. lia.
Qed.

(** ** The merge passes *)

(** X5: [merge_down] ends on every section list (the iteration being the one
    modelled for [iterate_sections]) and only pairs documentation with code:
    the non-empty documentation texts of the result are those of the input,
    in the same order, and so are the non-empty code texts; the list never
    grows. *)
Theorem merge_down_keeps_texts (sections : list section) :
  exists out,
    merge_down sections = Some out
    /\ docs_blocks out = docs_blocks sections
    /\ code_blocks out = code_blocks sections
    /\ length out <= length sections.
Proof.
  destruct (iterate_sections_invariant merge_down_at
              (fun _ s => docs_blocks s = docs_blocks sections
                          /\ code_blocks s = code_blocks sections
                          /\ length s <= length sections) 1) with (sections := sections)
    as (out & j & Hout & _ & HI); [|done|by exists out].
  intros s i Hi (Hd & Hc & Hl).
  destruct (merge_down_at_cases s i) as (prev & cur & Hp & Hcur & [[_ ->]|[Hm ->]]); [lia| |].
  - simpl. repeat split; try done; lia.
  - simpl. rewrite merged_length by lia. split; [|lia]. split; [|split; [|lia]].
    + rewrite <- Hd.
      transitivity (docs_blocks (take (i - 1) s ++ prev :: cur :: drop (S i) s));
        [|by rewrite <- neighbours_split by (done || lia)].
      rewrite !docs_blocks_app. f_equal.
      unfold merges_down, has_code, has_docs in Hm. unfold docs_blocks, merged_down. simpl.
      destruct (docs_text prev), (code_text prev), (docs_text cur), (code_text cur);
        simpl in *; done.
    + rewrite <- Hc.
      transitivity (code_blocks (take (i - 1) s ++ prev :: cur :: drop (S i) s));
        [|by rewrite <- neighbours_split by (done || lia)].
      rewrite !code_blocks_app. f_equal.
      unfold merges_down, has_code, has_docs in Hm. unfold code_blocks, merged_down. simpl.
      destruct (docs_text prev), (code_text prev), (docs_text cur), (code_text cur);
        simpl in *; done.
Qed.

Lemma merge_down_no_neighbours (sections : list section) :
  exists out, merge_down sections = Some out /\ no_neighbours merges_down out.
Proof.
  destruct (iterate_sections_invariant merge_down_at
              (fun i s => forall j prev cur,
                            s !! j = Some prev -> s !! S j = Some cur -> S j < i ->
                            merges_down prev cur = false) 1) with (sections := sections)
    as (out & k & Hout & Hk & HI).
  - intros s i Hi HI.
    destruct (merge_down_at_cases s i) as (prev & cur & Hp & Hc & [[Hm ->]|[Hm ->]]); [lia| |].
    + simpl. split; [|lia]. intros j p c Hj HSj Hlt.
      destruct (decide (S j = i)) as [<-|Hne]; [|apply (HI j p c Hj HSj); lia].
      replace (S j - 1) with j in Hp by lia. congruence.
    + simpl. rewrite merged_length by lia. split; [|lia]. intros j p c Hj HSj Hlt.
      assert (Hlen : length (take (i - 1) s) = i - 1) by (rewrite length_take; lia).
      unfold merges_down, has_code, has_docs in Hm.
      apply andb_true_iff in Hm as [[[H1 H2]%andb_true_iff H3]%andb_true_iff H4].
      destruct (decide (S j < i - 1)) as [Hlow|Hhigh].
      * rewrite lookup_app_l in Hj, HSj by lia.
        rewrite lookup_take_lt in Hj, HSj by lia.
        apply (HI j p c Hj HSj). lia.
      * destruct (decide (S j = i - 1)) as [Heq|Hne].
        -- rewrite lookup_app_r in HSj by lia.
           replace (S j - length (take (i - 1) s)) with 0 in HSj by lia.
           injection HSj as <-. unfold merges_down, has_code, has_docs, merged_down. simpl.
           rewrite H2. simpl. by rewrite andb_false_r.
        -- assert (j = i - 1) as -> by lia.
           rewrite lookup_app_r in Hj by lia.
           replace (i - 1 - length (take (i - 1) s)) with 0 in Hj by lia.
           injection Hj as <-. unfold merges_down, has_code, has_docs, merged_down. simpl.
           by rewrite H4.
  - intros j prev cur _ _ Hlt. lia.
  - exists out. split; [done|]. intros j prev cur Hj HSj.
    apply (HI j prev cur Hj HSj). apply lookup_lt_Some in HSj. lia.
Qed.

(** X6: [merge_down] is complete and idempotent: in its result no section
    with documentation and no code is followed by a section with code and no
    documentation, and running the pass on its result changes nothing. *)
Theorem merge_down_idempotent (sections : list section) :
  exists out,
    merge_down sections = Some out
    /\ no_neighbours merges_down out
    /\ merge_down out = Some out.
Proof.
  destruct (merge_down_no_neighbours sections) as (out & Hout & Hno).
  exists out. split; [done|]. split; [done|].
  destruct (iterate_sections_invariant merge_down_at (fun _ s => s = out) 1)
    with (sections := out) as (out' & k & Hout' & _ & ->); [|done|done].
  intros s i Hi ->.
  destruct (merge_down_at_cases out i) as (prev & cur & Hp & Hc & [[Hm ->]|[Hm ->]]); [lia| |].
  - simpl. split; [done|lia].
  - rewrite (Hno (i - 1) prev cur) in Hm; [done|done|].
    by replace (S (i - 1)) with i by lia.
Qed.

Lemma merge_up_at_cases (scope_keywords : list regex) (sections : list section) (i : nat) :
  0 < i < length sections ->
  exists prev cur,
    sections !! (i - 1) = Some prev /\ sections !! i = Some cur
    /\ ((merges_up scope_keywords prev cur = false
         /\ merge_up_at scope_keywords sections i = (sections, None))
        \/ (merges_up scope_keywords prev cur = true
            /\ merge_up_at scope_keywords sections i
               = (take (i - 1) sections ++ merged_up prev cur :: drop (S i) sections,
                  None))).
Proof.
  intros Hi. destruct (neighbours_exist sections i Hi) as (prev & cur & Hp & Hc).
  exists prev, cur. split; [done|]. split; [done|].
  unfold merge_up_at, merges_up. rewrite Hp, Hc.
  destruct (negb (has_code cur) && negb (has_docs prev) && has_code prev); simpl;
    [|left; done].
  destruct (matches_any _ _); [right|left]; split; try done.
  f_equal. eapply delete_insert_previous; [lia|done|done].
Qed.

(** X7: [merge_up] ends on every section list and only pairs documentation
    with code: the non-empty documentation texts of the result are those of
    the input, in the same order, and so are the non-empty code texts; the
    list never grows.  With no scope keywords, as in the base class, the
    pass changes nothing. *)
Theorem merge_up_keeps_texts (scope_keywords : list regex) (sections : list section) :
  (exists out,
     merge_up scope_keywords sections = Some out
     /\ docs_blocks out = docs_blocks sections
     /\ code_blocks out = code_blocks sections
     /\ length out <= length sections)
  /\ merge_up [] sections = Some sections.
Proof.
  split.
  - destruct (iterate_sections_invariant (merge_up_at scope_keywords)
                (fun _ s => docs_blocks s = docs_blocks sections
                            /\ code_blocks s = code_blocks sections
                            /\ length s <= length sections) 1) with (sections := sections)
      as (out & j & Hout & _ & HI); [|done|by exists out].
    intros s i Hi (Hd & Hc & Hl).
    destruct (merge_up_at_cases scope_keywords s i)
      as (prev & cur & Hp & Hcur & [[_ ->]|[Hm ->]]); [lia| |].
    + simpl. repeat split; try done; lia.
    + simpl. rewrite merged_length by lia. split; [|lia]. split; [|split; [|lia]].
      * rewrite <- Hd.
        transitivity (docs_blocks (take (i - 1) s ++ prev :: cur :: drop (S i) s));
          [|by rewrite <- neighbours_split by (done || lia)].
        rewrite !docs_blocks_app. f_equal.
        unfold merges_up, has_code, has_docs in Hm. unfold docs_blocks, merged_up. simpl.
        destruct (docs_text prev), (code_text prev), (docs_text cur), (code_text cur);
          simpl in *; done.
      * rewrite <- Hc.
        transitivity (code_blocks (take (i - 1) s ++ prev :: cur :: drop (S i) s));
          [|by rewrite <- neighbours_split by (done || lia)].
        rewrite !code_blocks_app. f_equal.
        unfold merges_up, has_code, has_docs in Hm. unfold code_blocks, merged_up. simpl.
        destruct (docs_text prev), (code_text prev), (docs_text cur), (code_text cur);
          simpl in *; done.
  - destruct (iterate_sections_invariant (merge_up_at []) (fun _ s => s = sections) 1)
      with (sections := sections) as (out & k & Hout & _ & ->); [|done|done].
    intros s i Hi ->.
    destruct (merge_up_at_cases [] sections i)
      as (prev & cur & Hp & Hc & [[Hm ->]|[Hm ->]]); [lia| |].
    + simpl. split; [done|lia].
    + unfold merges_up in Hm. simpl in Hm. by rewrite andb_false_r in Hm.
Qed.

(** ** What [python_absorb] keeps *)

Lemma all_docs_app (a b : list section) : all_docs (a ++ b) = all_docs a +:+ all_docs b.
Proof.
  induction a as [|s a IH]; [done|].
  change (docs_text s +:+ all_docs (a ++ b) = (docs_text s +:+ all_docs a) +:+ all_docs b).
  by rewrite IH, string_app_assoc.
Qed.

Lemma all_code_app (a b : list section) : all_code (a ++ b) = all_code a +:+ all_code b.
Proof.
  induction a as [|s a IH]; [done|].
  change (code_text s +:+ all_code (a ++ b) = (code_text s +:+ all_code a) +:+ all_code b).
  by rewrite IH, string_app_assoc.
Qed.

(** X8: [python_absorb] ends on every section list and moves text without
    changing it: the documentation texts of the result, joined in order,
    are those of the input joined in order, and so are the code texts; the
    list never grows. *)
Theorem python_absorb_keeps_texts (sections : list section) :
  exists out,
    python_absorb sections = Some out
    /\ all_docs out = all_docs sections
    /\ all_code out = all_code sections
    /\ length out <= length sections.
Proof.
  destruct (iterate_sections_invariant python_absorb_at
              (fun _ s => all_docs s = all_docs sections
                          /\ all_code s = all_code sections
                          /\ length s <= length sections) 1) with (sections := sections)
    as (out & j & Hout & _ & HI); [|done|by exists out].
  intros s i Hi (Hd & Hc & Hl).
  destruct (neighbours_exist s i) as (prev & cur & Hp & Hcur); [lia|].
  destruct (is_decorator prev) eqn:Hdeco.
  - rewrite (python_absorb_at_decorator s i prev cur Hp Hcur Hdeco). simpl.
    rewrite merged_length by lia. split; [|lia]. split; [|split; [|lia]].
    + rewrite <- Hd.
      transitivity (all_docs (take (i - 1) s ++ prev :: cur :: drop (S i) s));
        [|by rewrite <- neighbours_split by (done || lia)].
      rewrite !all_docs_app. f_equal.
      change (all_docs (absorbed_decorator prev cur :: drop (S i) s))
        with ((docs_text prev +:+ docs_text cur) +:+ all_docs (drop (S i) s)).
      change (all_docs (prev :: cur :: drop (S i) s))
        with (docs_text prev +:+ (docs_text cur +:+ all_docs (drop (S i) s))).
      by rewrite string_app_assoc.
    + rewrite <- Hc.
      transitivity (all_code (take (i - 1) s ++ prev :: cur :: drop (S i) s));
        [|by rewrite <- neighbours_split by (done || lia)].
      rewrite !all_code_app. f_equal.
      change (all_code (absorbed_decorator prev cur :: drop (S i) s))
        with ((code_text prev +:+ code_text cur) +:+ all_code (drop (S i) s)).
      change (all_code (prev :: cur :: drop (S i) s))
        with (code_text prev +:+ (code_text cur +:+ all_code (drop (S i) s))).
      by rewrite string_app_assoc.
  - rewrite (python_absorb_at_other s i prev Hp Hdeco). simpl.
    repeat split; try done; lia.
Qed.

(** ** Lines of a text *)

Lemma string_rev_onto_app (s acc : string) :
  string_rev_onto s acc = string_rev s +:+ acc.
Proof.
  unfold string_rev. revert acc. induction s as [|c s IH]; intros acc; simpl; [done|].
  rewrite (IH (String c acc)), (IH (String c EmptyString)).
  by rewrite string_app_assoc.
Qed.

Lemma string_rev_app (a b : string) : string_rev (a +:+ b) = string_rev b +:+ string_rev a.
Proof.
  induction a as [|c a IH]; simpl.
  - by rewrite string_app_nil_r.
  - unfold string_rev at 1 3. simpl.
    rewrite !(string_rev_onto_app _ (String c EmptyString)), IH.
    by rewrite string_app_assoc.
Qed.

Lemma string_rev_involutive (s : string) : string_rev (string_rev s) = s.
Proof.
  induction s as [|c s IH]; [done|].
  unfold string_rev at 2. simpl. rewrite string_rev_onto_app, string_rev_app, IH. done.
Qed.

Lemma all_chars_rev (p : ascii -> bool) (s : string) :
  all_chars p (string_rev s) = all_chars p s.
Proof.
  induction s as [|c s IH]; [done|].
  unfold string_rev. simpl. rewrite string_rev_onto_app, all_chars_app, IH. simpl.
  by rewrite andb_true_r, andb_comm.
Qed.

(** What [lstrip] and [rstrip] take off is made of the stripped characters. *)
Lemma lstrip_with_split (p : ascii -> bool) (s : string) :
  exists t, s = t +:+ lstrip_with p s /\ all_chars p t = true.
Proof.
  induction s as [|c s (t & Ht & Hall)]; [by exists EmptyString|].
  simpl. destruct (p c) eqn:Hc.
  - exists (String c t). simpl. rewrite <- Ht, Hc. done.
  - by exists EmptyString.
Qed.

Lemma rstrip_with_split (p : ascii -> bool) (s : string) :
  exists t, s = rstrip_with p s +:+ t /\ all_chars p t = true.
Proof.
  destruct (lstrip_with_split p (string_rev s)) as (t & Ht & Hall).
  exists (string_rev t). split; [|by rewrite all_chars_rev].
  unfold rstrip_with. rewrite <- string_rev_app, <- Ht. by rewrite string_rev_involutive.
Qed.

Lemma split_nl_acc_app (cur a b : string) :
  split_nl_acc cur (a +:+ String nl b) = split_nl_acc cur a ++ split_nl b.
Proof.
  revert cur. induction a as [|c a IH]; intros cur; simpl; [done|].
  destruct (is_nl c); [|apply IH]. simpl. f_equal. apply IH.
Qed.

Lemma code_lines_app_nl (a b : string) :
  code_lines (a +:+ String nl b) = code_lines a ++ code_lines b.
Proof. unfold code_lines, split_nl. by rewrite split_nl_acc_app, List.filter_app. Qed.

Lemma code_lines_nl (b : string) : code_lines (String nl b) = code_lines b.
Proof. apply (code_lines_app_nl EmptyString b). Qed.

Lemma code_lines_newlines (t : string) : all_chars is_nl t = true -> code_lines t = [].
Proof.
  induction t as [|c t IH]; [done|]. simpl. intros [Hc Ht]%andb_true_iff.
  unfold is_nl in Hc. apply Ascii.eqb_eq in Hc as ->. rewrite code_lines_nl. by apply IH.
Qed.

Lemma code_lines_newlines_l (t b : string) :
  all_chars is_nl t = true -> code_lines (t +:+ b) = code_lines b.
Proof.
  induction t as [|c t IH]; [done|]. simpl. intros [Hc Ht]%andb_true_iff.
  unfold is_nl in Hc. apply Ascii.eqb_eq in Hc as ->. rewrite code_lines_nl. by apply IH.
Qed.

Lemma code_lines_newlines_r (a t : string) :
  all_chars is_nl t = true -> code_lines (a +:+ t) = code_lines a.
Proof.
  destruct t as [|c t]; [by rewrite string_app_nil_r|]. simpl.
  intros [Hc Ht]%andb_true_iff. unfold is_nl in Hc. apply Ascii.eqb_eq in Hc as ->.
  by rewrite code_lines_app_nl, (code_lines_newlines t Ht), app_nil_r.
Qed.

(** The non-empty lines of what [absorb] joins are those of the two code
    texts. *)
Lemma code_lines_absorbed (a b : string) :
  code_lines (rstrip_nl a +:+ blank_line +:+ lstrip_nl b) = code_lines a ++ code_lines b.
Proof.
  destruct (rstrip_with_split is_nl a) as (ta & Ha & Hta).
  destruct (lstrip_with_split is_nl b) as (tb & Hb & Htb).
  fold (rstrip_nl a) in Ha. fold (lstrip_nl b) in Hb.
  rewrite Ha at 2. rewrite Hb at 2.
  rewrite (code_lines_newlines_r (rstrip_nl a) ta Hta).
  rewrite (code_lines_newlines_l tb (lstrip_nl b) Htb).
  unfold blank_line. simpl. by rewrite code_lines_app_nl, code_lines_nl.
Qed.

(** ** What [absorb] keeps *)

Lemma absorb_at_cases (sections : list section) (i : nat) :
  0 < i < length sections ->
  exists prev cur,
    sections !! (i - 1) = Some prev /\ sections !! i = Some cur
    /\ ((absorbs prev cur = false /\ absorb_at sections i = (sections, None))
        \/ (absorbs prev cur = true
            /\ absorb_at sections i
               = (take (i - 1) sections ++ absorbed prev cur :: drop (S i) sections, None))).
Proof.
  intros Hi. destruct (neighbours_exist sections i Hi) as (prev & cur & Hp & Hc).
  exists prev, cur. split; [done|]. split; [done|].
  unfold absorb_at. rewrite Hp, Hc. fold (absorbs prev cur).
  destruct (absorbs prev cur); [right|left]; split; try done.
  f_equal. eapply delete_insert_previous; [lia|done|done].
Qed.

Lemma all_code_lines_app (a b : list section) :
  all_code_lines (a ++ b) = all_code_lines a ++ all_code_lines b.
Proof. apply List.flat_map_app. Qed.

(** X9: [absorb] ends on every section list, never takes a section that has
    documentation and never loses, joins or reorders a line of code: the
    non-empty documentation texts of the result are those of the input, in
    the same order, and the non-empty code lines of the result, section by
    section, are those of the input; the list never grows. *)
Theorem absorb_keeps_lines (sections : list section) :
  exists out,
    absorb sections = Some out
    /\ docs_blocks out = docs_blocks sections
    /\ all_code_lines out = all_code_lines sections
    /\ length out <= length sections.
Proof.
  destruct (iterate_sections_invariant absorb_at
              (fun _ s => docs_blocks s = docs_blocks sections
                          /\ all_code_lines s = all_code_lines sections
                          /\ length s <= length sections) 1) with (sections := sections)
    as (out & j & Hout & _ & HI); [|done|by exists out].
  intros s i Hi (Hd & Hc & Hl).
  destruct (absorb_at_cases s i) as (prev & cur & Hp & Hcur & [[_ ->]|[Hm ->]]); [lia| |].
  - simpl. repeat split; try done; lia.
  - simpl. rewrite merged_length by lia. split; [|lia]. split; [|split; [|lia]].
    + rewrite <- Hd.
      transitivity (docs_blocks (take (i - 1) s ++ prev :: cur :: drop (S i) s));
        [|by rewrite <- neighbours_split by (done || lia)].
      rewrite !docs_blocks_app. f_equal.
      unfold absorbs, has_docs in Hm. unfold docs_blocks, absorbed. simpl.
      destruct (docs_text prev), (docs_text cur); simpl in *; done.
    + rewrite <- Hc.
      transitivity (all_code_lines (take (i - 1) s ++ prev :: cur :: drop (S i) s));
        [|by rewrite <- neighbours_split by (done || lia)].
      rewrite !all_code_lines_app. f_equal.
      change (all_code_lines (absorbed prev cur :: drop (S i) s))
        with (code_lines (rstrip_nl (code_text prev) +:+ blank_line
                          +:+ lstrip_nl (code_text cur))
              ++ all_code_lines (drop (S i) s)).
      change (all_code_lines (prev :: cur :: drop (S i) s))
        with (code_lines (code_text prev)
              ++ code_lines (code_text cur) ++ all_code_lines (drop (S i) s)).
      by rewrite code_lines_absorbed, <- app_assoc.
Qed.

(** ** Indentation *)

Lemma star_loop_S (step : mstate -> list mstate) (fuel : nat) (st : mstate) :
  star_loop step (S fuel) st
  = flat_map (fun st' => if (m_pos st' =? m_pos st)%nat then [] else star_loop step fuel st')
      (step st) ++ [st].
Proof. reflexivity. Qed.

(** The greedy loop over a character class reports first the state past the
    longest run of characters of the class. *)
Lemma star_cls_greedy (multiline : bool) (p : ascii -> bool) (s : string) :
  forall (fuel : nat) (prev : option ascii) (pos : nat) (gs : list (nat * (nat * nat))),
    String.length s < fuel ->
    exists e rest,
      star_loop (rmatch multiline (Cls p)) fuel (MState prev pos s gs) = e :: rest
      /\ m_pos e = pos + leading p s
      /\ m_groups e = gs.
Proof.
  set (step := rmatch multiline (Cls p)).
  induction s as [|c s IH]; intros fuel prev pos gs Hfuel.
  - destruct fuel as [|fuel]; [simpl in Hfuel; lia|].
    exists (MState prev pos EmptyString gs), []. rewrite star_loop_S.
    split; [done|]. split; [simpl; lia|done].
  - destruct fuel as [|fuel]; [simpl in Hfuel; lia|].
    simpl in Hfuel. rewrite star_loop_S.
    change (step (MState prev pos (String c s) gs))
      with (if p c then [eat c s (MState prev pos (String c s) gs)] else []).
    cbn [leading]. destruct (p c) eqn:Hc.
    + destruct (IH fuel (Some c) (S pos) gs) as (e & rest & He & Hpos & Hgs); [lia|].
      exists e, (rest ++ [MState prev pos (String c s) gs]).
      cbn [flat_map eat m_pos m_groups].
      rewrite (proj2 (Nat.eqb_neq (S pos) pos)) by lia.
      change (eat c s (MState prev pos (String c s) gs)) with (MState (Some c) (S pos) s gs).
      rewrite He, app_nil_r. split; [done|]. split; [lia|done].
    + exists (MState prev pos (String c s) gs), [].
      split; [done|]. split; [simpl; lia|done].
Qed.

Lemma leading_le (p : ascii -> bool) (s : string) : leading p s <= String.length s.
Proof. induction s as [|c s IH]; simpl; [lia|]. destruct (p c); lia. Qed.

Lemma substring_0_length (n : nat) (s : string) :
  n <= String.length s -> String.length (substring 0 n s) = n.
Proof.
  revert n. induction s as [|c s IH]; intros [|n] Hn; simpl in *; try done; try lia.
  rewrite IH; lia.
Qed.

(** The indentation the level passes read is the run of spaces and tabs the
    text starts with. *)
Lemma blank_indent_length (multiline : bool) (text : string) :
  String.length (blank_indent multiline text) = leading is_blank text.
Proof.
  unfold blank_indent, re_match, blank_indent_re.
  change (rmatch multiline (Seq Bol (Grp 1 (Star (Cls is_blank)))) (MState None 0 text []))
    with (map (close_group 1 0)
            (star_loop (rmatch multiline (Cls is_blank)) (S (String.length text))
               (MState None 0 text [])) ++ []).
  destruct (star_cls_greedy multiline is_blank text (S (String.length text)) None 0 [])
    as (e & rest & He & Hpos & Hgs); [lia|].
  rewrite He. cbn [map app]. unfold group, mk_match, close_group.
  cbn [match_groups match_text snd fst m_groups m_pos group_span Nat.eqb].
  unfold slice. rewrite Hpos. cbn [Nat.add]. rewrite Nat.sub_0_r.
  apply substring_0_length, leading_le.
Qed.

Lemma set_level_same (y : section) : set_level (level y) y = y.
Proof. by destruct y. Qed.

(** One call of [set_sections_levels]: the section at [i] gets a level and
    nothing else changes. *)
Lemma set_sections_levels_at_step (s : list section) (i : nat) (y : section) :
  s !! i = Some y ->
  exists n,
    set_sections_levels_at s i = (<[i := set_level n y]> s, None)
    /\ (has_code y = true -> n = leading is_blank (code_text y))
    /\ (has_code y = false -> forall p, s !! (i - 1) = Some p -> 0 < i -> n = level p)
    /\ (has_code y = false -> i = 0 -> n = level y).
Proof.
  intros Hy. unfold set_sections_levels_at, at_index, has_code. rewrite Hy.
  destruct (nonempty (code_text y)) eqn:Hcode.
  - exists (String.length (blank_indent false (code_text y))).
    split; [done|]. split; [intros _; apply blank_indent_length|]. split; done.
  - destruct (Nat.ltb_spec 0 i) as [Hpos|Hzero].
    + destruct (s !! (i - 1)) as [p|] eqn:Hp.
      * exists (level p). split; [done|]. split; [done|]. split; [|lia].
        intros _ p' [= <-] _. done.
      * exists (level y). rewrite set_level_same. split; [done|]. split; [done|].
        split; [done|]. done.
    + exists (level y). rewrite set_level_same. split; [done|]. split; [done|].
      split; [intros; lia|done].
Qed.

(** X10: [set_sections_levels] ends on every section list and changes
    nothing but levels.  In its result the level of a section with code is
    the number of spaces and tabs its code text starts with, and the level
    of a section without code is the level of the section before it; the
    pass run again on its result changes nothing. *)
Theorem set_sections_levels_sets_levels (sections : list section) :
  exists out,
    set_sections_levels sections = Some out
    /\ Forall2 (fun x y => y = set_level (level y) x) sections out
    /\ (forall j y, out !! j = Some y -> has_code y = true ->
                    level y = leading is_blank (code_text y))
    /\ (forall j p y, out !! j = Some p -> out !! S j = Some y -> has_code y = false ->
                      level y = level p)
    /\ set_sections_levels out = Some out.
Proof.
  destruct (iterate_sections_invariant set_sections_levels_at
              (fun i s =>
                 Forall2 (fun x y => y = set_level (level y) x) sections s
                 /\ (forall j y, j < i -> s !! j = Some y -> has_code y = true ->
                                 level y = leading is_blank (code_text y))
                 /\ (forall j p y, S j < i -> s !! j = Some p -> s !! S j = Some y ->
                                   has_code y = false -> level y = level p)) 0)
    with (sections := sections) as (out & k & Hout & Hk & HA & HB & HC).
  - intros s i Hi (HA & HB & HC).
    destruct (lookup_lt_is_Some_2 s i) as [y Hy]; [lia|].
    destruct (set_sections_levels_at_step s i y Hy) as (n & -> & Hn1 & Hn2 & Hn3).
    simpl. rewrite length_insert. split; [|lia]. split; [|split].
    + apply Forall2_same_length_lookup. apply Forall2_same_length_lookup in HA as [Hlen HA].
      split; [by rewrite length_insert|]. intros j x y' Hx Hy'.
      destruct (decide (j = i)) as [->|Hne].
      * rewrite list_lookup_insert_eq in Hy' by lia. injection Hy' as <-.
        rewrite (HA i x y Hx Hy). done.
      * rewrite list_lookup_insert_ne in Hy' by done. by apply (HA j x y').
    + intros j y' Hj Hy' Hcode. destruct (decide (j = i)) as [->|Hne].
      * rewrite list_lookup_insert_eq in Hy' by lia. injection Hy' as <-.
        simpl. apply Hn1. exact Hcode.
      * rewrite list_lookup_insert_ne in Hy' by done. apply (HB j y'); [lia|done|done].
    + intros j p y' Hj Hp Hy' Hcode.
      rewrite list_lookup_insert_ne in Hp by lia.
      destruct (decide (S j = i)) as [<-|Hne].
      * rewrite list_lookup_insert_eq in Hy' by lia. injection Hy' as <-.
        simpl. apply Hn2; [exact Hcode| |lia].
        by replace (S j - 1) with j by lia.
      * rewrite list_lookup_insert_ne in Hy' by done. apply (HC j p y'); [lia|done|done|done].
  - split; [|split].
    + apply Forall2_same_length_lookup. split; [done|].
      intros j x y Hx Hy. rewrite Hx in Hy. injection Hy as <-. by rewrite set_level_same.
    + intros j y Hj. lia.
    + intros j p y Hj. lia.
  - exists out. split; [done|]. split; [done|].
    assert (HB' : forall j y, out !! j = Some y -> has_code y = true ->
                              level y = leading is_blank (code_text y)).
    { intros j y Hy. apply (HB j y); [|done]. apply lookup_lt_Some in Hy. lia. }
    assert (HC' : forall j p y, out !! j = Some p -> out !! S j = Some y ->
                                has_code y = false -> level y = level p).
    { intros j p y Hp Hy. apply (HC j p y); [|done|done]. apply lookup_lt_Some in Hy. lia. }
    split; [done|]. split; [done|].
    destruct (iterate_sections_invariant set_sections_levels_at (fun _ s => s = out) 0)
      with (sections := out) as (out' & k' & Hout' & _ & ->); [|done|done].
    intros s i Hi ->.
    destruct (lookup_lt_is_Some_2 out i) as [y Hy]; [lia|].
    destruct (set_sections_levels_at_step out i y Hy) as (n & -> & Hn1 & Hn2 & Hn3).
    simpl. rewrite length_insert. split; [|lia].
    assert (n = level y) as ->.
    { destruct (has_code y) eqn:Hcode.
      - rewrite (Hn1 eq_refl). symmetry. by apply (HB' i y).
      - destruct i as [|i]; [by apply Hn3|].
        destruct (lookup_lt_is_Some_2 out i) as [p Hp]; [lia|].
        rewrite (HC' i p y Hp Hy Hcode). apply Hn2; [done| |lia].
        by replace (S i - 1) with i by lia. }
    rewrite set_level_same. by apply list_insert_id.
Qed.

(** ** The strategy of the base class *)

Lemma iterate_sections_short (f : step) (start : nat) (sections : list section) :
  length sections <= start -> iterate_sections start f sections = Some sections.
Proof.
  intros Hlen. unfold iterate_sections, iteration_bound. cbn [iterate_from].
  by rewrite (proj2 (Nat.leb_le _ _)) by done.
Qed.

Lemma iterate_sections_single (f : step) (s s' : section) :
  f [s] 0 = ([s'], None) -> iterate_sections 0 f [s] = Some [s'].
Proof.
  intros Hf. unfold iterate_sections, iteration_bound. cbn [iterate_from length Nat.leb].
  rewrite Hf. cbn [default]. destruct (_ + _); reflexivity.
Qed.

Lemma set_sections_levels_single (docs code : string) (n : nat) :
  set_sections_levels [MkSection docs code n EmptyString None]
  = Some [MkSection docs code (if nonempty code then leading is_blank code else n)
            EmptyString None].
Proof.
  apply iterate_sections_single. unfold set_sections_levels_at, at_index. simpl.
  destruct (nonempty code); [|done]. by rewrite blank_indent_length.
Qed.

Lemma strip_docs_indentation_no_docs (code : string) (n : nat) :
  strip_docs_indentation [MkSection EmptyString code n EmptyString None]
  = Some [MkSection EmptyString code n EmptyString None].
Proof. by apply iterate_sections_single. Qed.

(** X11: with the strategy of the base class alone, which knows no comment
    syntax, [parse] returns the whole text as the code of one section that
    has no documentation, whatever the scope keywords; its level is the
    number of spaces and tabs the text starts with.  The empty text gives no
    section at all. *)
Theorem base_parse_is_one_code_section (scope_keywords : list regex) (code : string) :
  Language_parse (Language_strategy scope_keywords) code
  = Some (if nonempty code
          then [MkSection EmptyString code (leading is_blank code) EmptyString None]
          else []).
Proof.
  unfold Language_parse, Language_strategy, new_section. cbn [run_strategy].
  rewrite set_sections_levels_single.
  assert (Hn : (if nonempty code then leading is_blank code else 0)
               = leading is_blank code) by (by destruct code).
  rewrite Hn, strip_docs_indentation_no_docs.
  assert (Hl : set_sections_levels
                 [MkSection EmptyString code (leading is_blank code) EmptyString None]
               = Some [MkSection EmptyString code (leading is_blank code) EmptyString None]).
  { rewrite set_sections_levels_single. by destruct (nonempty code). }
  rewrite Hl. unfold merge_up. rewrite iterate_sections_short by (simpl; lia).
  rewrite Hl. unfold merge_down. rewrite iterate_sections_short by (simpl; lia).
  rewrite Hl. unfold absorb. rewrite iterate_sections_short by (simpl; lia).
  f_equal. unfold has_code, has_docs. cbn [filter list_filter]. simpl.
  by destruct (nonempty code).
Qed.

(** ** The extension of a file name *)

Lemma flat_map_nil {A B : Type} (f : A -> list B) (l : list A) :
  (forall x, In x l -> f x = []) -> flat_map f l = [].
Proof.
  induction l as [|x l IH]; intros Hf; simpl; [done|].
  rewrite (Hf x) by (by left). apply IH. intros y Hy. apply Hf. by right.
Qed.

Lemma leading_all (p : ascii -> bool) (s : string) :
  all_chars p s = true -> leading p s = String.length s.
Proof.
  induction s as [|c s IH]; simpl; [done|].
  intros [Hc Hs]%andb_true_iff. rewrite Hc. by rewrite IH.
Qed.

(** Past the last dot, the group of the extension pattern matches nowhere. *)
Lemma extension_group_fails (fuel : nat) (st : mstate) :
  contains_char "." (m_rest st) = false ->
  flat_map (rmatch false (Grp 1 (Seq (Chr ".") (Plus Dot))))
    (star_loop (rmatch false Dot) fuel st) = [].
Proof.
  intros Hst. apply flat_map_nil. intros e He.
  assert (Hrest : contains_char "." (m_rest e) = false).
  { revert He. apply (in_star_loop _ (fun e => contains_char "." (m_rest e) = false)); [|done].
    intros st1 st2 H1. unfold Dot. cbn [rmatch].
    destruct (m_rest st1) as [|a s]; [done|].
    destruct (negb (is_nl a)); [|done]. intros [<-|[]]. simpl in *.
    by apply orb_false_iff in H1 as [_ H1]. }
  cbn [rmatch]. destruct (m_rest e) as [|a s]; [done|].
  simpl in Hrest. apply orb_false_iff in Hrest as [Ha _]. by rewrite Ha.
Qed.

(** At a dot followed by an extension, the group takes the dot and the
    extension. *)
Lemma extension_group_matches (prev : option ascii) (pos : nat) (ext : string)
  (gs : list (nat * (nat * nat))) :
  nonempty ext = true -> all_chars not_nl ext = true ->
  exists e rest,
    rmatch false (Grp 1 (Seq (Chr ".") (Plus Dot))) (MState prev pos (String "." ext) gs)
    = e :: rest
    /\ m_groups e = (1, (pos, pos + S (String.length ext))) :: gs.
Proof.
  intros Hne Hall. destruct ext as [|c ext]; [done|].
  simpl in Hall. apply andb_true_iff in Hall as [Hc Hall].
  destruct (star_cls_greedy false not_nl ext (S (String.length ext))
              (Some c) (S (S pos)) gs) as (e & rest & He & Hpos & Hgs); [lia|].
  exists (close_group 1 pos e), (map (close_group 1 pos) rest).
  split.
  - change (rmatch false (Grp 1 (Seq (Chr ".") (Plus Dot)))
              (MState prev pos (String "." (String c ext)) gs))
      with (map (close_group 1 pos)
              (flat_map (rmatch false (Plus Dot))
                 (rmatch false (Chr ".") (MState prev pos (String "." (String c ext)) gs)))).
    change (rmatch false (Chr ".") (MState prev pos (String "." (String c ext)) gs))
      with [MState (Some "."%char) (S pos) (String c ext) gs].
    cbn [flat_map]. rewrite app_nil_r.
    change (rmatch false (Plus Dot) (MState (Some "."%char) (S pos) (String c ext) gs))
      with (flat_map (rmatch false (Star Dot))
              (if negb (is_nl c)
               then [MState (Some c) (S (S pos)) ext gs] else [])).
    unfold not_nl in Hc. rewrite Hc. cbn [flat_map]. rewrite app_nil_r.
    change (rmatch false (Star Dot) (MState (Some c) (S (S pos)) ext gs))
      with (star_loop (rmatch false (Cls not_nl)) (S (String.length ext))
              (MState (Some c) (S (S pos)) ext gs)).
    by rewrite He.
  - unfold close_group. cbn [m_groups]. rewrite Hgs, Hpos.
    rewrite (leading_all _ ext Hall). simpl. do 3 f_equal. lia.
Qed.

(** The extension pattern reports the match whose group starts at the last
    dot of the name. *)
Lemma extension_re_last_dot (ext : string) (stem : string) :
  nonempty ext = true -> all_chars not_nl ext = true -> contains_char "." ext = false ->
  all_chars not_nl stem = true ->
  forall (fuel : nat) (prev : option ascii) (pos : nat),
    String.length (stem +:+ String "." ext) < fuel ->
    exists e rest,
      flat_map (rmatch false (Grp 1 (Seq (Chr ".") (Plus Dot))))
        (star_loop (rmatch false Dot) fuel (MState prev pos (stem +:+ String "." ext) []))
      = e :: rest
      /\ m_groups e
         = [(1, (pos + String.length stem, pos + String.length stem + S (String.length ext)))].
Proof.
  intros Hne Hall Hdot. induction stem as [|c stem IH]; intros Hstem fuel prev pos Hfuel.
  - destruct fuel as [|fuel]; [simpl in Hfuel; lia|].
    rewrite star_loop_S.
    change (rmatch false Dot (MState prev pos (EmptyString +:+ String "." ext) []))
      with [MState (Some "."%char) (S pos) ext []].
    cbn [flat_map m_pos]. rewrite (proj2 (Nat.eqb_neq (S pos) pos)) by lia.
    rewrite app_nil_r, flat_map_app, extension_group_fails by done.
    cbn [flat_map app]. rewrite app_nil_r.
    destruct (extension_group_matches prev pos ext [] Hne Hall) as (e & rest & He & Hgs).
    exists e, rest. split; [exact He|]. rewrite Hgs. simpl. do 3 f_equal; lia.
  - destruct fuel as [|fuel]; [simpl in Hfuel; lia|].
    simpl in Hstem. apply andb_true_iff in Hstem as [Hc Hstem].
    rewrite star_loop_S.
    change (rmatch false Dot (MState prev pos (String c stem +:+ String "." ext) []))
      with (if negb (is_nl c)
            then [MState (Some c) (S pos) (stem +:+ String "." ext) []] else []).
    unfold not_nl in Hc. rewrite Hc.
    cbn [flat_map m_pos]. rewrite (proj2 (Nat.eqb_neq (S pos) pos)) by lia.
    rewrite app_nil_r, flat_map_app.
    destruct (IH Hstem fuel (Some c) (S pos)) as (e & rest & He & Hgs);
      [simpl in Hfuel; lia|].
    rewrite He. eexists e, _. split; [reflexivity|].
    rewrite Hgs. simpl. do 3 f_equal; lia.
Qed.

(** X12: with no forced language, the language of a source is looked up
    under what follows the last dot of its base name, the dot included: a
    base name [stem.ext], where [ext] is not empty and has no dot and the
    name has no newline, resolves to the definition the registry holds for
    [.ext], whatever the content and the guesser. *)
Theorem get_language_by_last_extension (guess : string -> option string)
  (mapping : gmap string Language) (source code stem ext : string) (l : Language) :
  basename source = stem +:+ String "." ext ->
  all_chars not_nl stem = true ->
  nonempty ext = true -> all_chars not_nl ext = true -> contains_char "." ext = false ->
  mapping !! String "." ext = Some l ->
  by_extension mapping source = Some l
  /\ get_language_in guess mapping source code None = Returns (Some l).
Proof.
  intros Hbase Hstem Hne Hall Hdot Hl.
  assert (Hext : by_extension mapping source = Some l).
  { unfold by_extension, re_match. rewrite Hbase.
    change (rmatch false extension_re (MState None 0 (stem +:+ String "." ext) []))
      with (flat_map (rmatch false (Grp 1 (Seq (Chr ".") (Plus Dot))))
              (star_loop (rmatch false Dot) (S (String.length (stem +:+ String "." ext)))
                 (MState None 0 (stem +:+ String "." ext) []))).
    destruct (extension_re_last_dot ext stem Hne Hall Hdot Hstem
                (S (String.length (stem +:+ String "." ext))) None 0)
      as (e & rest & He & Hgs); [lia|].
    rewrite He. unfold group, mk_match. cbn [match_groups match_text snd fst].
    rewrite Hgs. cbn [group_span Nat.eqb]. unfold slice.
    replace (0 + String.length stem + S (String.length ext) - (0 + String.length stem))
      with (String.length (String "." ext)) by (simpl; lia).
    replace (stem +:+ String "." ext) with (stem +:+ String "." ext +:+ EmptyString)
      by (by rewrite string_app_nil_r).
    cbn [Nat.add]. by rewrite substring_app_middle. }
  split; [done|]. unfold get_language_in. by rewrite Hext.
Qed.

Lemma get_language_by_last_extension_witness :
  by_extension extensions_mapping "src/archive.tar.py" = Some Python
  /\ get_language_in (fun _ => None) extensions_mapping "src/archive.tar.py" "x = 1" None
     = Returns (Some Python).
Proof.
  apply (get_language_by_last_extension (fun _ => None) extensions_mapping
           "src/archive.tar.py" "x = 1" "archive.tar" "py" Python);
    vm_compute; reflexivity.
Defined.

(** X13: a source whose base name has no dot has no language: with no
    forced language and the built-in registry, [get_language] returns
    [None] for it, whatever the content and the guesser. *)
Theorem get_language_without_dot (guess : string -> option string) (source code : string) :
  contains_char "." (basename source) = false ->
  get_language guess source code None = Returns None.
Proof.
  intros Hdot.
  assert (Hext : by_extension extensions_mapping source = None).
  { unfold by_extension, re_match.
    change (rmatch false extension_re (MState None 0 (basename source) []))
      with (flat_map (rmatch false (Grp 1 (Seq (Chr ".") (Plus Dot))))
              (star_loop (rmatch false Dot) (S (String.length (basename source)))
                 (MState None 0 (basename source) []))).
    by rewrite extension_group_fails. }
  unfold get_language, get_language_in. rewrite Hext.
  destruct (guess code) as [guessed|]; [|reflexivity].
  assert (Hnone : find_by_name extensions_mapping (lower guessed) = None).
  { apply find_by_name_None.
    eapply Forall_impl; [apply builtin_names_have_upper|].
    intros l Hup Heq. simpl in Hup.
    rewrite Heq, lower_has_no_upper in Hup. done. }
  by rewrite Hnone.
Qed.

Lemma get_language_without_dot_witness :
  get_language (fun _ => Some "Python") "build/Makefile" "all: build" None = Returns None.
Proof.
  apply (get_language_without_dot (fun _ => Some "Python") "build/Makefile" "all: build").
  vm_compute. reflexivity.
Defined.

(** ** The inline pattern of any language *)

Lemma lit_reads (multiline : bool) (s : string) (st e : mstate) :
  In e (rmatch multiline (Lit s) st) -> reads st e s.
Proof.
  revert st. induction s as [|c s IH]; intros st; cbn [Lit rmatch].
  - intros [<-|[]]. apply reads_refl.
  - intros (st1 & H1 & H)%in_flat_map.
    destruct (m_rest st) as [|a r] eqn:Hrest; [done|].
    destruct (Ascii.eqb_spec a c) as [->|]; [|done]. destruct H1 as [<-|[]].
    apply IH in H.
    apply (reads_trans st (eat c r st) e (String c EmptyString) s); [|done].
    by apply reads_eat.
Qed.

Lemma dont_match_same (multiline : bool) (ignored : list regex) (st e : mstate) :
  In e (rmatch multiline (dont_match ignored) st) -> e = st.
Proof.
  destruct ignored as [|p ps]; cbn [dont_match rmatch].
  - by intros [<-|[]].
  - destruct (map _ _); [|done]. by intros [<-|[]].
Qed.

Lemma comment_line_reads (inline_delimiter : string) (ignored : list regex) (st e : mstate) :
  In e (rmatch true (inline_line inline_delimiter ignored) st) ->
  exists content,
    reads st e (line content) /\ comment_line inline_delimiter content
    /\ at_bol true st = true.
Proof.
  unfold inline_line. cbn [rmatch].
  intros (st0 & H0 & H)%in_flat_map.
  destruct (at_bol true st) eqn:Hbol; [|done]. destruct H0 as [<-|[]].
  apply in_flat_map in H as (st1 & H1 & H).
  apply (star_cls_reads true is_blank) in H1 as (w1 & Hr1 & Hw1).
  apply in_flat_map in H as (st2 & H2 & H).
  apply lit_reads in H2.
  apply in_flat_map in H as (st3 & H3 & H).
  apply dont_match_same in H3 as ->.
  apply in_flat_map in H as (st4 & H4 & H).
  apply (star_cls_reads true (fun c => negb (is_nl c))) in H4 as (w2 & Hr2 & Hw2).
  destruct (m_rest st4) as [|a4 s4] eqn:Hrest4; [done|].
  destruct (Ascii.eqb_spec a4 nl) as [->|]; [|done]. destruct H as [<-|[]].
  exists (w1 +:+ inline_delimiter +:+ w2). split; [|split; [|done]].
  - unfold line. rewrite !string_app_assoc.
    eapply reads_trans; [exact Hr1|]. eapply reads_trans; [exact H2|].
    eapply reads_trans; [exact Hr2|]. by apply reads_eat.
  - by exists w1, w2.
Qed.

Lemma comment_run_reads (inline_delimiter : string) (ignored : list regex) (fuel : nat)
  (st e : mstate) :
  In e (star_loop (rmatch true (inline_line inline_delimiter ignored)) fuel st) ->
  exists lines, reads st e (text_of lines) /\ Forall (comment_line inline_delimiter) lines.
Proof.
  apply (in_star_loop _
    (fun e => exists lines, reads st e (text_of lines)
                            /\ Forall (comment_line inline_delimiter) lines)).
  - intros st1 st2 (lines & Hr & Hl) (content & Hr' & Hc & _)%comment_line_reads.
    exists (lines ++ [content]). split.
    + rewrite text_of_app. simpl. rewrite string_app_nil_r. by eapply reads_trans.
    + apply Forall_app. split; [done|]. by repeat constructor.
  - exists []. split; [apply reads_refl|constructor].
Qed.

(** X14: whatever the inline delimiter and the ignored patterns of a
    language, every match of its inline pattern that [finditer] reports in a
    text covers one or more whole lines of the text: it starts at the start
    of the text or right after a newline, ends right after a newline, its
    group 1 is those lines, and each of them is made of spaces and tabs, the
    delimiter and the rest of the line.  A comment that follows code on its
    line is therefore never taken as documentation. *)
Theorem inline_re_covers_comment_lines (inline_delimiter : string) (ignored : list regex)
  (text : string) :
  Forall (fun m => exists pre lines post,
            covers_lines text m pre lines post /\ lines <> []
            /\ Forall (comment_line inline_delimiter) lines)
    (finditer true (inline_re inline_delimiter ignored) text).
Proof.
  apply List.Forall_forall. intros m Hin. unfold finditer in Hin.
  apply finditer_from_found in Hin as (st & e & Hst & Hg & He & ->);
    [|by exists EmptyString].
  unfold inline_re, Plus in He. cbn [rmatch] in He.
  apply in_map_iff in He as (e' & <- & H).
  apply in_flat_map in H as (st1 & H1 & H).
  apply comment_line_reads in H1 as (content & Hr1 & Hc & Hbol).
  apply comment_run_reads in H as (lines & Hr & Hl).
  destruct (reads_trans _ _ _ _ _ Hr1 Hr) as [E P].
  destruct Hst as (pre & Ht & Hp & Hprev).
  exists pre, (content :: lines), (m_rest e'). split; [|split; [done|by constructor]].
  unfold covers_lines, mk_match, group, close_group.
  cbn [match_start match_end match_groups match_text fst snd m_pos m_groups group_span
       Nat.eqb text_of].
  rewrite P, Hp. repeat split.
  - by rewrite Ht, E.
  - by eapply at_bol_line_start.
  - unfold slice. rewrite Ht, E.
    replace (String.length pre + String.length (line content +:+ text_of lines)
             - String.length pre)
      with (String.length (line content +:+ text_of lines)) by lia.
    apply substring_app_middle.
Qed.

(** ** Stripping the indentation of documentation *)

Lemma leading_split (p : ascii -> bool) (text : string) :
  text = substring 0 (leading p text) text +:+ drop_string (leading p text) text
  /\ all_chars p (substring 0 (leading p text) text) = true
  /\ leading p (drop_string (leading p text) text) = 0.
Proof.
  induction text as [|c text (IH1 & IH2 & IH3)]; [done|].
  simpl. destruct (p c) eqn:Hc; simpl.
  - rewrite Hc, IH2, IH3, <- IH1. done.
  - by rewrite Hc.
Qed.

Lemma blank_indent_prefix (multiline : bool) (text : string) :
  blank_indent multiline text = substring 0 (leading is_blank text) text.
Proof.
  unfold blank_indent, re_match, blank_indent_re.
  change (rmatch multiline (Seq Bol (Grp 1 (Star (Cls is_blank)))) (MState None 0 text []))
    with (map (close_group 1 0)
            (star_loop (rmatch multiline (Cls is_blank)) (S (String.length text))
               (MState None 0 text [])) ++ []).
  destruct (star_cls_greedy multiline is_blank text (S (String.length text)) None 0 [])
    as (e & rest & He & Hpos & Hgs); [lia|].
  rewrite He. cbn [map app]. unfold group, mk_match, close_group.
  cbn [match_groups match_text snd fst m_groups m_pos group_span Nat.eqb].
  unfold slice. rewrite Hpos. cbn [Nat.add]. by rewrite Nat.sub_0_r.
Qed.

(** A literal matches where the text holds it, in one way. *)
Lemma lit_matches (multiline : bool) (s rest : string) :
  forall (prev : option ascii) (pos : nat) (gs : list (nat * (nat * nat))),
    rmatch multiline (Lit s) (MState prev pos (s +:+ rest) gs)
    = [MState (match last_char s with Some c => Some c | None => prev end)
         (pos + String.length s) rest gs].
Proof.
  induction s as [|c s IH]; intros prev pos gs.
  - simpl. by rewrite Nat.add_0_r.
  - change (rmatch multiline (Lit (String c s)) (MState prev pos (String c s +:+ rest) gs))
      with (flat_map (rmatch multiline (Lit s))
              (if Ascii.eqb c c then [MState (Some c) (S pos) (s +:+ rest) gs] else [])).
    rewrite Ascii.eqb_refl. cbn [flat_map]. rewrite IH, app_nil_r.
    f_equal. f_equal; [|simpl; lia].
    destruct s as [|a s']; [done|].
    change (last_char (String c (String a s'))) with (last_char (String a s')).
    destruct (last_char (String a s')) eqn:Hl; [done|]. by apply last_char_None in Hl.
Qed.

Lemma all_chars_last (p : ascii -> bool) (s : string) (c : ascii) :
  all_chars p s = true -> last_char s = Some c -> p c = true.
Proof.
  induction s as [|a s IH]; [done|]. simpl.
  intros [Ha Hs]%andb_true_iff. destruct s as [|b s]; [by intros [= <-]|].
  by apply IH.
Qed.

(** Substituting the empty match at line starts by nothing changes nothing. *)
Lemma sub_line_starts_id (text : string) (s : string) :
  forall (fuel : nat) (last : option nat) (prev : option ascii) (pos : nat),
    String.length s < fuel ->
    sub_from true (Seq Bol (Lit EmptyString)) (fun _ => EmptyString) text fuel last prev pos s
    = s.
Proof.
  induction s as [|c s IH]; intros fuel last prev pos Hfuel;
    (destruct fuel as [|fuel]; [simpl in Hfuel; lia|]).
  - cbn [sub_from Lit rmatch flat_map m_pos]. destruct (at_bol true _); simpl; [|done].
    rewrite Nat.eqb_refl. by destruct (decide _).
  - cbn [sub_from Lit rmatch flat_map m_pos]. simpl in Hfuel.
    destruct (at_bol true _); simpl.
    + rewrite Nat.eqb_refl. destruct (decide _); simpl; rewrite IH by lia; done.
    + rewrite IH by lia. done.
Qed.

(** After the substitution the text does not start with a space or a tab. *)
Lemma strip_indent_unindented (text : string) :
  leading is_blank
    (re_sub true (Seq Bol (Lit (blank_indent true text))) (fun _ => EmptyString) text) = 0.
Proof.
  rewrite blank_indent_prefix.
  destruct (leading_split is_blank text) as (Hsplit & Hall & Hrest).
  remember (substring 0 (leading is_blank text) text) as indent eqn:Hi.
  remember (drop_string (leading is_blank text) text) as rest eqn:Hr.
  clear Hi Hr. subst text. unfold re_sub. destruct indent as [|b ind].
  - rewrite sub_line_starts_id by lia. done.
  - cbn [sub_from].
    change (rmatch true (Seq Bol (Lit (String b ind)))
              (MState None 0 (String b ind +:+ rest) []))
      with (rmatch true (Lit (String b ind))
              (MState None 0 (String b ind +:+ rest) []) ++ []).
    rewrite lit_matches. cbn [app m_pos m_prev m_rest Nat.add String.length Nat.eqb].
    destruct (last_char (String b ind)) as [c|] eqn:Hlast;
      [|by apply last_char_None in Hlast].
    pose proof (all_chars_last is_blank _ c Hall Hlast) as Hc.
    rewrite string_app_length.
    change (String.length (String b ind)) with (S (String.length ind)).
    cbn [sub_from String.append Nat.add].
    change (rmatch true (Seq Bol (Lit (String b ind)))
              (MState (Some c) (S (String.length ind)) rest []))
      with (flat_map (rmatch true (Lit (String b ind)))
              (if is_nl c then [MState (Some c) (S (String.length ind)) rest []] else [])).
    pose proof (blank_not_nl c Hc) as Hnl. unfold not_nl in Hnl.
    apply negb_true_iff in Hnl. rewrite Hnl. cbn [flat_map].
    destruct rest as [|a rest']; [done|]. simpl in Hrest. simpl.
    by destruct (is_blank a).
Qed.

(** A method that rewrites [sections[i]] from that section alone maps the
    list. *)
Lemma iterate_at_index_map (g : section -> section) (sections : list section) :
  iterate_sections 0 (at_index (fun _ _ s => g s)) sections = Some (g <$> sections).
Proof.
  destruct (iterate_sections_invariant (at_index (fun _ _ s => g s))
              (fun i s => i <= length sections
                          /\ s = (g <$> take i sections) ++ drop i sections) 0)
    with (sections := sections) as (out & j & Hout & Hj & Hle & ->).
  - intros s i Hi (Hle & ->).
    assert (Hlen : length ((g <$> take i sections) ++ drop i sections) = length sections).
    { rewrite length_app, length_fmap, length_take, length_drop. lia. }
    rewrite Hlen in Hi.
    destruct (lookup_lt_is_Some_2 sections i) as [x Hx]; [lia|].
    assert (Htake : length (g <$> take i sections) = i)
      by (rewrite length_fmap, length_take; lia).
    unfold at_index. rewrite lookup_app_r by lia. rewrite Htake, Nat.sub_diag.
    rewrite (drop_S _ _ _ Hx). simpl.
    split; [|rewrite length_insert, length_app, Htake; simpl; rewrite length_drop; lia].
    split; [lia|].
    rewrite insert_app_r_alt by lia. rewrite Htake, Nat.sub_diag. simpl.
    rewrite (take_S_r _ _ _ Hx), fmap_app, <- app_assoc. done.
  - split; [lia|]. by rewrite take_0, drop_0.
  - rewrite Hout. f_equal.
    rewrite length_app, length_fmap, length_take, length_drop in Hj.
    rewrite take_ge, drop_ge by lia. by rewrite app_nil_r.
Qed.

(** X15: [strip_docs_indentation] ends on every section list and changes
    nothing but documentation texts.  In its result no documentation text
    starts with a space or a tab, and a documentation text that did not
    start with one is left as it was. *)
Theorem strip_docs_indentation_unindents (sections : list section) :
  exists out,
    strip_docs_indentation sections = Some out
    /\ Forall2 (fun x y => y = set_docs (docs_text y) x
                           /\ leading is_blank (docs_text y) = 0
                           /\ (leading is_blank (docs_text x) = 0 ->
                               docs_text y = docs_text x))
         sections out.
Proof.
  eexists. split; [apply iterate_at_index_map|].
  apply Forall2_fmap_r. induction sections as [|x sections IH]; constructor; [|done].
  split; [done|]. split; [apply strip_indent_unindented|].
  intros Hx. simpl. rewrite blank_indent_prefix, Hx.
  destruct (docs_text x); apply sub_line_starts_id; lia.
Qed.

(** ** Cutting code at line starts *)

Lemma last_char_split (s : string) (c : ascii) :
  last_char s = Some c -> exists s', s = s' +:+ String c EmptyString.
Proof.
  induction s as [|a s IH]; [done|]. simpl. destruct s as [|b s].
  - intros [= <-]. by exists EmptyString.
  - intros H. destruct (IH H) as (s' & ->). by exists (String a s').
Qed.

Lemma code_lines_cut (pre rest : string) :
  pre = EmptyString \/ last_char pre = Some nl ->
  code_lines (pre +:+ rest) = code_lines pre ++ code_lines rest.
Proof.
  intros [->|Hlast]; [done|].
  destruct (last_char_split pre nl Hlast) as (pre' & ->).
  rewrite string_app_assoc. simpl.
  by rewrite !code_lines_app_nl, <- app_assoc.
Qed.

Lemma substring_prefix (pre rest : string) :
  substring 0 (String.length pre) (pre +:+ rest) = pre.
Proof. apply (substring_app_middle EmptyString pre rest). Qed.

Lemma drop_string_app (pre rest : string) :
  drop_string (String.length pre) (pre +:+ rest) = rest.
Proof. induction pre as [|c pre IH]; simpl; [by destruct rest|done]. Qed.

Lemma code_lines_strip_nl (text : string) : code_lines (strip_nl text) = code_lines text.
Proof.
  unfold strip_nl, strip_with.
  destruct (lstrip_with_split is_nl text) as (t1 & H1 & Ht1).
  destruct (rstrip_with_split is_nl (lstrip_with is_nl text)) as (t2 & H2 & Ht2).
  rewrite H1 at 2. rewrite (code_lines_newlines_l t1 _ Ht1).
  rewrite H2 at 2. by rewrite (code_lines_newlines_r _ t2 Ht2).
Qed.

Lemma same_texts_refl (a : list section) : same_texts a a.
Proof. done. Qed.

Lemma same_texts_trans (a b c : list section) :
  same_texts a b -> same_texts b c -> same_texts a c.
Proof. intros [H1 H2] [H3 H4]. split; congruence. Qed.

(** Replacing a section by sections with the same texts. *)
Lemma same_texts_splice (sections pieces : list section) (i : nat) (s : section) :
  sections !! i = Some s -> same_texts pieces [s] ->
  same_texts (splice i pieces sections) sections.
Proof.
  intros Hs [Hd Hc]. unfold splice.
  rewrite <- (take_drop_middle sections i s Hs) at 3.
  split.
  - rewrite !docs_blocks_app, Hd. by rewrite <- docs_blocks_app.
  - rewrite !all_code_lines_app, Hc. by rewrite <- all_code_lines_app.
Qed.

Lemma same_texts_update (sections : list section) (j : nat) (f : section -> section) :
  (forall p, docs_text (f p) = docs_text p
             /\ code_lines (code_text (f p)) = code_lines (code_text p)) ->
  same_texts (update j f sections) sections /\ length (update j f sections) = length sections.
Proof.
  intros Hf. unfold update. destruct (sections !! j) as [s|] eqn:Hs; [|done].
  rewrite length_insert. split; [|done].
  rewrite insert_take_drop by (by eapply lookup_lt_Some).
  apply (same_texts_splice sections [f s] j s Hs).
  destruct (Hf s) as [Hd Hc]. unfold same_texts, docs_blocks, all_code_lines. simpl.
  by rewrite Hd, Hc.
Qed.

Lemma update_code (sections : list section) (j k : nat) (f : section -> section) :
  (forall p, code_text (f p) = code_text p) ->
  code_text <$> update j f sections !! k = code_text <$> sections !! k.
Proof.
  intros Hf. unfold update. destruct (sections !! j) as [s|] eqn:Hs; [|done].
  destruct (decide (k = j)) as [->|Hne].
  - rewrite list_lookup_insert_eq by (by eapply lookup_lt_Some). rewrite Hs. simpl.
    by rewrite Hf.
  - by rewrite list_lookup_insert_ne.
Qed.

(** A cut at a line start of the code keeps the texts. *)
Lemma split_code_by_pos_keeps (sections : list section) (i pos : nat) :
  (forall s, sections !! i = Some s ->
     exists pre rest, code_text s = pre +:+ rest /\ pos = String.length pre
                      /\ (pre = EmptyString \/ last_char pre = Some nl)) ->
  same_texts (split_code_by_pos i pos sections) sections
  /\ length sections <= length (split_code_by_pos i pos sections) <= S (length sections).
Proof.
  intros Hcut. unfold split_code_by_pos. destruct (sections !! i) as [s|] eqn:Hs.
  - destruct (Hcut s eq_refl) as (pre & rest & Hcode & -> & Hline). split.
    + apply (same_texts_splice sections _ i s Hs). unfold slice. rewrite Hcode.
      rewrite Nat.sub_0_r, substring_prefix, drop_string_app.
      unfold same_texts, docs_blocks, all_code_lines. simpl. rewrite Hcode.
      rewrite (code_lines_cut pre rest Hline), !app_nil_r. split; [|done].
      by destruct (docs_text s).
    + unfold splice. rewrite length_app, length_take. simpl. rewrite length_drop.
      apply lookup_lt_Some in Hs. lia.
  - split; [done|lia].
Qed.

Lemma seek_located (text : string) (n : nat) :
  forall (prev : option ascii) (pos : nat) (s : string),
    located text (MState prev pos s []) ->
    located text (MState (seek n prev pos s).1.1 (seek n prev pos s).1.2
                    (seek n prev pos s).2 []).
Proof.
  induction n as [|n IH]; intros prev pos s Hloc; [by destruct s|].
  destruct s as [|c s]; [done|]. simpl. apply IH.
  by apply (located_eat text (MState prev pos (String c s) []) c s).
Qed.

(** A match of an anchored pattern starts at a line start of the text. *)
Lemma re_search_line_start (r : regex) (text : string) (pos : nat) (m : Match) :
  (forall st e, In e (rmatch true r st) -> at_bol true st = true) ->
  re_search true r text pos = Some m ->
  exists pre rest, text = pre +:+ rest /\ match_start m = String.length pre
                   /\ (pre = EmptyString \/ last_char pre = Some nl).
Proof.
  intros Hbol. unfold re_search.
  pose proof (seek_located text pos None 0 text) as Hloc.
  destruct (seek pos None 0 text) as [[prev p] s]. simpl in Hloc.
  destruct (search_at true r prev p s) as [[b e]|] eqn:Hsearch; [|done].
  intros [= <-].
  destruct (search_at_found true text r s prev p b e) as (st & Hst & _ & Hb & He);
    [apply Hloc; by exists EmptyString|done|].
  pose proof (Hbol st e He) as Hst_bol.
  destruct Hst as (pre & Ht & Hp & Hprev).
  exists pre, (m_rest st). split; [done|]. split; [simpl; congruence|].
  by eapply at_bol_line_start.
Qed.

Lemma anchored_at_bol (r : regex) (st e : mstate) :
  anchored r = true -> In e (rmatch true r st) -> at_bol true st = true.
Proof.
  destruct r as [| | |r1 r2| | | | | | |]; try done. destruct r1; try done.
  intros _. cbn [rmatch]. destruct (at_bol true st); [done|]. by intros [].
Qed.

Lemma alts_at_bol (scope_keywords : list regex) (st e : mstate) :
  forallb anchored scope_keywords = true ->
  In e (rmatch true (Alts scope_keywords) st) -> at_bol true st = true.
Proof.
  induction scope_keywords as [|r rs IH]; [done|].
  simpl. intros [Hr Hrs]%andb_true_iff. destruct rs as [|r' rs].
  - by apply anchored_at_bol.
  - cbn [rmatch]. intros [H|H]%in_app_or; [by eapply anchored_at_bol|by apply IH].
Qed.

Lemma scopes_re_at_bol (scope_keywords : list regex) (st e : mstate) :
  forallb anchored scope_keywords = true ->
  In e (rmatch true (scopes_re scope_keywords) st) -> at_bol true st = true.
Proof.
  intros Hk. unfold scopes_re. cbn [rmatch].
  intros (e' & _ & H)%in_map_iff. by eapply alts_at_bol.
Qed.

Lemma outdent_re_at_bol (n : nat) (st e : mstate) :
  In e (rmatch true (outdent_re n) st) -> at_bol true st = true.
Proof. by apply anchored_at_bol. Qed.

(** The last cut of [split_by_scopes]: the code of [sections[i]] is cut at a
    line start and the new section loses the newlines around its code. *)
Lemma scope_cut_keeps (sections : list section) (i pos : nat) (label code1 : string) :
  code1 = default EmptyString (code_text <$> sections !! i) ->
  (exists pre rest, code1 = pre +:+ rest /\ pos = String.length pre
                    /\ (pre = EmptyString \/ last_char pre = Some nl)) ->
  same_texts
    (update (i + 1) (fun p => set_scope label (set_code (strip_nl (code_text p)) p))
       (split_code_by_pos i pos sections)) sections
  /\ length sections
     <= length (update (i + 1)
                  (fun p => set_scope label (set_code (strip_nl (code_text p)) p))
                  (split_code_by_pos i pos sections))
     <= S (length sections).
Proof.
  intros Hcode Hcut.
  destruct (split_code_by_pos_keeps sections i pos) as [Hsame Hlen].
  { intros s Hs. rewrite Hs in Hcode. simpl in Hcode. by rewrite <- Hcode. }
  destruct (same_texts_update (split_code_by_pos i pos sections) (i + 1)
              (fun p => set_scope label (set_code (strip_nl (code_text p)) p)))
    as [Hsame' Hlen'].
  { intros p. split; [done|]. simpl. apply code_lines_strip_nl. }
  split; [by eapply same_texts_trans|]. rewrite Hlen'. exact Hlen.
Qed.

(** X16: one call of the [split_by_scopes] of an indentation based language,
    with at least one scope keyword and all of them anchored at a line start
    (as those of Python are), cuts code only at line starts: the non-empty
    documentation texts stay as they are, the non-empty code lines stay the
    same, section by section in order, and at most two sections are added. *)
Theorem split_by_scopes_keeps_texts (scope_keywords : list regex)
  (sections : list section) (i : nat) :
  0 < length scope_keywords ->
  forallb anchored scope_keywords = true ->
  same_texts (indent_split_by_scopes_at scope_keywords sections i).1 sections
  /\ length sections
     <= length (indent_split_by_scopes_at scope_keywords sections i).1
     <= length sections + 2.
Proof.
  intros _ Hk. unfold indent_split_by_scopes_at.
  destruct (sections !! i) as [s|] eqn:Hs; [|simpl; split; [done|lia]].
  set (indent := String.length (space_indent (strip_nl (code_text s)))).
  set (sections1 :=
         match re_search true (outdent_re indent) (code_text s) (indent + 1) with
         | Some m =>
             update (i + 1) (set_level (String.length (strip_nl (group m 1))))
               (update i (set_level indent) (split_code_by_pos i (match_start m) sections))
         | None => sections
         end).
  assert (H1 : same_texts sections1 sections
               /\ length sections <= length sections1 <= S (length sections)).
  { unfold sections1.
    destruct (re_search true (outdent_re indent) (code_text s) (indent + 1)) as [m|] eqn:Hm;
      [|split; [done|lia]].
    destruct (split_code_by_pos_keeps sections i (match_start m)) as [Hsame Hlen].
    { intros s' Hs'. rewrite Hs in Hs'. injection Hs' as <-.
      apply (re_search_line_start (outdent_re indent) _ (indent + 1) m); [|done].
      apply outdent_re_at_bol. }
    destruct (same_texts_update (split_code_by_pos i (match_start m) sections) i
                (set_level indent)) as [Ha Hla]; [done|].
    destruct (same_texts_update
                (update i (set_level indent) (split_code_by_pos i (match_start m) sections))
                (i + 1) (set_level (String.length (strip_nl (group m 1)))))
      as [Hb Hlb]; [done|].
    split; [eapply same_texts_trans; [exact Hb|]; by eapply same_texts_trans|].
    rewrite Hlb, Hla. exact Hlen. }
  clearbody sections1. destruct H1 as [Hsame1 Hlen1].
  set (code1 := default EmptyString (code_text <$> sections1 !! i)).
  assert (Hstart : forall pos m,
            re_search true (scopes_re scope_keywords) code1 pos = Some m ->
            exists pre rest, code1 = pre +:+ rest /\ match_start m = String.length pre
                             /\ (pre = EmptyString \/ last_char pre = Some nl)).
  { intros pos m. apply re_search_line_start. intros st e. by apply scopes_re_at_bol. }
  assert (Hfinal : forall sections2 m,
            same_texts sections2 sections1 -> length sections2 = length sections1 ->
            code_text <$> sections2 !! i = code_text <$> sections1 !! i ->
            (exists pre rest, code1 = pre +:+ rest /\ match_start m = String.length pre
                              /\ (pre = EmptyString \/ last_char pre = Some nl)) ->
            same_texts
              (update (i + 1)
                 (fun p => set_scope (strip (group m 1)) (set_code (strip_nl (code_text p)) p))
                 (split_code_by_pos i (match_start m) sections2)) sections
            /\ length sections
               <= length (update (i + 1)
                            (fun p => set_scope (strip (group m 1))
                                        (set_code (strip_nl (code_text p)) p))
                            (split_code_by_pos i (match_start m) sections2))
               <= length sections + 2).
  { intros sections2 m Hsame2 Hlen2 Hcode2 Hcut.
    destruct (scope_cut_keeps sections2 i (match_start m) (strip (group m 1)) code1)
      as [Hsame Hlen]; [by rewrite Hcode2|done|].
    split; [eapply same_texts_trans; [exact Hsame|]; by eapply same_texts_trans|lia]. }
  destruct (re_search true (scopes_re scope_keywords) code1 0) as [m|] eqn:Hfound.
  - destruct (match_start m =? 0)%nat.
    + destruct (same_texts_update sections1 i (set_scope (strip (group m 1))))
        as [Hsame2 Hlen2]; [done|].
      destruct (re_search true (scopes_re scope_keywords) code1 (match_start m + 1))
        as [m2|] eqn:Hfound2.
      * apply Hfinal; [done|done|by apply update_code|by eapply Hstart].
      * cbn [fst]. rewrite Hlen2. split; [by eapply same_texts_trans|lia].
    + apply Hfinal; [done|done|done|by eapply Hstart].
  - simpl. split; [done|lia].
Qed.

Lemma split_by_scopes_keeps_texts_witness :
  same_texts
    (indent_split_by_scopes_at Python_scope_keywords
       [new_section EmptyString (text_of ["x = 1"; "def f():"; "    pass"])] 0).1
    [new_section EmptyString (text_of ["x = 1"; "def f():"; "    pass"])]
  /\ length [new_section EmptyString (text_of ["x = 1"; "def f():"; "    pass"])]
     <= length (indent_split_by_scopes_at Python_scope_keywords
                  [new_section EmptyString (text_of ["x = 1"; "def f():"; "    pass"])] 0).1
     <= length [new_section EmptyString (text_of ["x = 1"; "def f():"; "    pass"])] + 2.
Proof.
  apply (split_by_scopes_keeps_texts Python_scope_keywords
           [new_section EmptyString (text_of ["x = 1"; "def f():"; "    pass"])] 0).
  - simpl. lia.
  - reflexivity.
Defined.


(** * Every pass returns *)

(** ** What a match reads *)






(** ** Where a search finds its match *)


(** ** The pieces a text is cut into *)





(** ** Passes that cut sections *)



















(** ** Passes that keep the sections or merge them *)









(** ** Lines that are joined *)













(** ** Passes that cut code in two *)















(** ** Strategies that return *)






















(** ** The final filter, again *)



(** ** Shebang lines *)










(** ** Texts without a block comment *)







(** ** Shebang lines stay in the code *)


